(** * Revenue forecasting dashboard: the forecast-data pipeline

    A shallow embedding of [streamlit.py]: the column normalizer
    (lines 28-35), the loader (lines 38-44), the series regularizer
    (lines 47-49), the cached model fit (lines 54-66) and the forecast
    assembly (lines 67-71), followed by the properties of the pipeline.

    Conventions of the embedding.
    - A pandas [Timestamp] is a record of calendar fields and the time of
      day; the representable range of pandas (years 1677 to 2262) and
      missing keys ([NaT]) are not modelled.
    - A float64 is a [spec_float] (IEEE 754 binary64); a missing value of
      a float column is the float NaN, as in pandas.
    - Text is ASCII: a [string] is the sequence of its characters.
    - [pd.to_datetime], [auto_arima], [Model.predict] and the drawing
      of a figure by matplotlib are external: they are the fields of the
      class [Externals]. *)

From Stdlib Require Import ZArith List Bool Lia String Ascii Sorted.
From Stdlib Require Import DecimalString.
From Stdlib Require Import Floats.
Import ListNotations.

Local Open Scope Z_scope.

(** ** Calendar arithmetic (pandas [Timestamp], [offsets.MonthEnd]) *)

Module Calendar.

(** [nanos] is the time of day, in nanoseconds since midnight. *)
Record Timestamp : Type := mkTimestamp {
  year : Z;
  month : Z;
  day : Z;
  nanos : Z
}.

Definition ts_eqb (a b : Timestamp) : bool :=
  (year a =? year b) && (month a =? month b) &&
  (day a =? day b) && (nanos a =? nanos b).

(** Timestamps compare by the instant they denote: lexicographically on
    the fields. *)
Definition ts_compare (a b : Timestamp) : comparison :=
  match year a ?= year b with
  | Eq => match month a ?= month b with
          | Eq => match day a ?= day b with
                  | Eq => nanos a ?= nanos b
                  | c => c
                  end
          | c => c
          end
  | c => c
  end.

Definition ts_ltb (a b : Timestamp) : bool :=
  match ts_compare a b with Lt => true | _ => false end.

Definition ts_lt (a b : Timestamp) : Prop := ts_ltb a b = true.

(** [is_leapyear]: [(year & 0x3) == 0 and (year % 100 != 0 or year % 400 == 0)]. *)
Definition is_leapyear (y : Z) : bool :=
  (Z.land y 3 =? 0) && (negb (y mod 100 =? 0) || (y mod 400 =? 0)).

Definition days_per_month_table (leap : bool) : list Z :=
  if leap then [31; 29; 31; 30; 31; 30; 31; 31; 30; 31; 30; 31]
  else [31; 28; 31; 30; 31; 30; 31; 31; 30; 31; 30; 31].

Definition get_days_in_month (y m : Z) : Z :=
  nth (Z.to_nat (m - 1)) (days_per_month_table (is_leapyear y)) 0.

(** A well-formed timestamp. *)
Definition valid_ts (t : Timestamp) : Prop :=
  1 <= month t <= 12 /\
  1 <= day t <= get_days_in_month (year t) (month t) /\
  0 <= nanos t < 86400000000000.

(** [roll_convention other n compare]: the number of whole months to move
    once the day of the month has been compared with the anchor day. *)
Definition roll_convention (other n compare : Z) : Z :=
  if (0 <? n) && (other <? compare) then n - 1
  else if (n <=? 0) && (compare <? other) then n + 1
  else n.

Definition year_add_months (t : Timestamp) (months : Z) : Z :=
  year t + (month t + months - 1) / 12.

Definition month_add_months (t : Timestamp) (months : Z) : Z :=
  let new_month := (month t + months) mod 12 in
  if new_month =? 0 then 12 else new_month.

(** [shift_months] with [day_opt = "end"]: move by [months] calendar
    months and land on the last day of the month reached; the time of
    day is kept. *)
Definition shift_months_end (t : Timestamp) (months : Z) : Timestamp :=
  let y := year_add_months t months in
  let m := month_add_months t months in
  mkTimestamp y m (get_days_in_month y m) (nanos t).

(** [t + pd.offsets.MonthEnd(n)]. *)
Definition MonthEnd (n : Z) (t : Timestamp) : Timestamp :=
  let compare_day := get_days_in_month (year t) (month t) in
  shift_months_end t (roll_convention (day t) n compare_day).

(** [MonthEnd.is_on_offset]. *)
Definition is_on_offset (t : Timestamp) : bool :=
  day t =? get_days_in_month (year t) (month t).

(** [MonthEnd.rollforward]. *)
Definition rollforward (t : Timestamp) : Timestamp :=
  if is_on_offset t then t else MonthEnd 1 t.

Fixpoint generate_range (cur : Timestamp) (periods : nat) : list Timestamp :=
  match periods with
  | O => []
  | S k => cur :: generate_range (MonthEnd 1 cur) k
  end.

(** [pd.date_range(start=start, periods=periods, freq="M")]: [periods]
    month ends, from [start] rolled forward onto a month end. *)
Definition date_range (start : Timestamp) (periods : nat) : list Timestamp :=
  generate_range (rollforward start) periods.

(** The calendar month of a timestamp, as a count of months. *)
Definition month_ordinal (t : Timestamp) : Z := 12 * year t + (month t - 1).

End Calendar.

Import Calendar.

(** ** Date-keyed float series (the frame after line 39) *)

Module Frame.

(** A row of the frame: its key in the index and its [" Revenue "] value. *)
Definition Row : Type := (Timestamp * spec_float)%type.
Definition t : Type := list Row.

Definition index (df : t) : list Timestamp := map fst df.
Definition column (df : t) : list spec_float := map snd df.

(** [data.index = idx]. *)
Definition set_index (df : t) (idx : list Timestamp) : t :=
  combine idx (column df).

(** [data[" Revenue "] = col]. *)
Definition set_column (df : t) (col : list spec_float) : t :=
  combine (index df) col.

(** [Index.duplicated(keep="first")]: a key is flagged when an equal key
    stands before it. *)
Fixpoint duplicated_from (seen idx : list Timestamp) : list bool :=
  match idx with
  | [] => []
  | k :: rest => existsb (ts_eqb k) seen :: duplicated_from (k :: seen) rest
  end.

Definition duplicated (idx : list Timestamp) : list bool :=
  duplicated_from [] idx.

(** [data[mask]]: the rows at which the boolean mask holds, in order. *)
Fixpoint select {A : Type} (rows : list A) (mask : list bool) : list A :=
  match rows, mask with
  | r :: rows', b :: mask' =>
      if b then r :: select rows' mask' else select rows' mask'
  | _, _ => []
  end.

Definition isna (x : spec_float) : bool :=
  match x with S754_nan => true | _ => false end.

(** [Series.fillna(method="ffill")]: a missing value takes the last valid
    value before it, when there is one. *)
Fixpoint ffill_from (last : option spec_float) (col : list spec_float)
  : list spec_float :=
  match col with
  | [] => []
  | x :: rest =>
      if isna x then
        match last with
        | Some v => v :: ffill_from last rest
        | None => x :: ffill_from last rest
        end
      else x :: ffill_from (Some x) rest
  end.

Definition ffill (col : list spec_float) : list spec_float :=
  ffill_from None col.

End Frame.

(** ** Series regularizer (lines 47-49) *)

(** Line 47: [data.index = data.index + pd.offsets.MonthEnd(-1)]. *)
Definition align (df : Frame.t) : Frame.t :=
  Frame.set_index df (map (MonthEnd (-1)) (Frame.index df)).

(** Line 48: [data = data[~data.index.duplicated(keep="first")]]. *)
Definition drop_duplicates (df : Frame.t) : Frame.t :=
  Frame.select df (map negb (Frame.duplicated (Frame.index df))).

(** Line 49: [data[" Revenue "] = data[" Revenue "].fillna(method="ffill")]. *)
Definition fill_missing (df : Frame.t) : Frame.t :=
  Frame.set_column df (Frame.ffill (Frame.column df)).

Definition regularize (df : Frame.t) : Frame.t :=
  fill_missing (drop_duplicates (align df)).

(** ** Text (Python [str] methods, on ASCII) *)

Module Text.

Definition code (c : ascii) : Z := Z.of_N (N_of_ascii c).

(** [str.isspace] on an ASCII character. *)
Definition str_isspace (c : ascii) : bool :=
  let n := code c in
  ((9 <=? n) && (n <=? 13)) || ((28 <=? n) && (n <=? 31)) || (n =? 32).

(** C's [Py_ISSPACE]: the six white-space characters of the C locale. *)
Definition Py_ISSPACE (c : ascii) : bool :=
  let n := code c in ((9 <=? n) && (n <=? 13)) || (n =? 32).

Definition is_digit (c : ascii) : bool :=
  let n := code c in (48 <=? n) && (n <=? 57).

Definition digit_value (c : ascii) : Z := code c - 48.

(** [str.lower] on an ASCII character. *)
Definition lower_char (c : ascii) : ascii :=
  let n := code c in
  if (65 <=? n) && (n <=? 90) then ascii_of_N (N_of_ascii c + 32) else c.

Fixpoint lower (s : string) : string :=
  match s with
  | EmptyString => EmptyString
  | String c rest => String (lower_char c) (lower rest)
  end.

Section Strip.

(** What counts as white space. *)
Variable space : ascii -> bool.

Fixpoint lstrip (s : string) : string :=
  match s with
  | EmptyString => EmptyString
  | String c rest => if space c then lstrip rest else s
  end.

Fixpoint rstrip (s : string) : string :=
  match s with
  | EmptyString => EmptyString
  | String c rest =>
      match rstrip rest with
      | EmptyString => if space c then EmptyString else String c EmptyString
      | kept => String c kept
      end
  end.

Definition strip_with (s : string) : string := rstrip (lstrip s).

End Strip.

(** [s.strip()]. *)
Definition strip (s : string) : string := strip_with str_isspace s.

(** [re.sub(pattern, "", s)] for a pattern that matches exactly the one
    character [c] (here ["\$"] and [","]): every occurrence is removed. *)
Fixpoint remove_char (c : ascii) (s : string) : string :=
  match s with
  | EmptyString => EmptyString
  | String d rest =>
      if Ascii.eqb d c then remove_char c rest else String d (remove_char c rest)
  end.

Fixpoint mem_char (c : ascii) (s : string) : bool :=
  match s with
  | EmptyString => false
  | String d rest => Ascii.eqb d c || mem_char c rest
  end.

End Text.

(** ** Column normalizer (lines 28-35) *)

(** A cell read from the CSV file: text, or a number when the whole
    column parsed as numbers (an empty cell is the float NaN). *)
Inductive cell : Type :=
| CStr (s : string)
| CNum (x : spec_float).

(** The table [pd.read_csv] returns: the named columns, in file order. *)
Definition RawTable : Type := list (string * list cell).

Definition columns (data : RawTable) : list string := map fst data.

Definition month_like (col : string) : bool :=
  String.eqb (Text.lower (Text.strip col)) "month".

(** [data.rename(columns={col: new})]. *)
Definition rename (data : RawTable) (col new : string) : RawTable :=
  map (fun c => if String.eqb (fst c) col then (new, snd c) else c) data.

Definition in_columns (name : string) (data : RawTable) : bool :=
  existsb (String.eqb name) (columns data).

(** Lines 28-35. [None] is the [else] branch of the [for] loop:
    [st.error] then [st.stop()]. *)
Definition normalize_columns (data : RawTable) : option RawTable :=
  if in_columns "Month" data then Some data
  else
    match find month_like (columns data) with
    | Some col => Some (rename data col "Month")
    | None => None
    end.

(** ** Revenue column cleaning (lines 42-44) *)

(** Python's [float(str)], which [astype(float)] applies to every text
    cell of an object column. *)
Module PyFloat.

Import Text.

(** The number a decimal literal denotes: [(-1)^neg * digits * 10^exp10]. *)
Record decimal : Type := mkDecimal {
  neg : bool;
  digits : Z;
  exp10 : Z
}.

(** Its absolute value is [numerator / denominator]. *)
Definition numerator (d : decimal) : Z := digits d * 10 ^ Z.max (exp10 d) 0.
Definition denominator (d : decimal) : Z := 10 ^ Z.max (- exp10 d) 0.

(** The binary64 numbers are the multiples of [2^-1074] that fit in 53
    bits, so [P = p * 2^1074] counts [p] in the smallest unit. The unit
    in the last place at [P / q] is [2^s] of them: [s] is 0 below
    [2^52] and otherwise such that [2^52 <= P / (q * 2^s) < 2^53]. *)
Definition ulp_shift (P q : Z) : Z :=
  let L := Z.log2 P - Z.log2 q in
  if L <? 0 then 0
  else Z.max ((if q * 2 ^ L <=? P then L else L - 1) - 52) 0.

(** The integer nearest to [num / den], the even one of two at the same
    distance. *)
Definition round_half_even (num den : Z) : Z :=
  let quo := num / den in
  match 2 * (num mod den) ?= den with
  | Lt => quo
  | Gt => quo + 1
  | Eq => if Z.even quo then quo else quo + 1
  end.

(** The binary64 of value [m * 2^e], for [m] of at most 53 bits or
    [2^53]: a zero, an infinity beyond the largest finite number, or the
    number with its mantissa in canonical form. *)
Definition encode (neg : bool) (m e : Z) : spec_float :=
  if m =? 0 then S754_zero neg
  else
    let '(m', e') := if m =? 2 ^ 53 then (2 ^ 52, e + 1) else (m, e) in
    if 971 <? e' then S754_infinity neg
    else S754_finite neg (Z.to_pos m') e'.

Definition round_ratio (neg : bool) (p q : Z) : spec_float :=
  let P := p * 2 ^ 1074 in
  let s := ulp_shift P q in
  encode neg (round_half_even P (q * 2 ^ s)) (s - 1074).

(** Round to the nearest binary64, ties to even; overflow gives an
    infinity and underflow a zero, as [float] does. *)
Definition round_decimal (d : decimal) : spec_float :=
  if digits d =? 0 then S754_zero (neg d)
  else round_ratio (neg d) (numerator d) (denominator d).

(** An underscore is accepted only between two digits. [prev] is the
    character before [s]. *)
Fixpoint underscores_ok (prev : ascii) (s : string) : bool :=
  match s with
  | EmptyString => negb (Ascii.eqb prev "_")
  | String c rest =>
      (if Ascii.eqb c "_" then is_digit prev
       else if Ascii.eqb prev "_" then is_digit c else true)
      && underscores_ok c rest
  end.

Definition parse_sign (s : string) : bool * string :=
  match s with
  | String c rest =>
      if Ascii.eqb c "-" then (true, rest)
      else if Ascii.eqb c "+" then (false, rest)
      else (false, s)
  | EmptyString => (false, s)
  end.

(** Read a run of digits: the number read so far, how many digits were
    read, and the text left. *)
Fixpoint scan_digits (acc count : Z) (s : string) : Z * Z * string :=
  match s with
  | String c rest =>
      if is_digit c then scan_digits (10 * acc + digit_value c) (count + 1) rest
      else (acc, count, s)
  | EmptyString => (acc, count, s)
  end.

(** An exponent needs at least one digit; otherwise nothing of it is
    consumed. *)
Definition parse_exponent (s : string) : Z * string :=
  match s with
  | String c rest =>
      if Ascii.eqb c "e" || Ascii.eqb c "E" then
        let '(esign, s1) := parse_sign rest in
        let '(v, n, s2) := scan_digits 0 0 s1 in
        if n =? 0 then (0, s) else ((if esign then - v else v), s2)
      else (0, s)
  | EmptyString => (0, s)
  end.

(** The grammar of [strtod]: the decimal read and the text left, or
    [None] when no digit was found. *)
Definition strtod (s : string) : option (decimal * string) :=
  let '(sign, s1) := parse_sign s in
  let '(v1, n1, s2) := scan_digits 0 0 s1 in
  let '(v2, nfrac, s3) :=
    match s2 with
    | String c rest =>
        if Ascii.eqb c "." then scan_digits v1 0 rest else (v1, 0, s2)
    | EmptyString => (v1, 0, s2)
    end in
  if n1 + nfrac =? 0 then None
  else
    let '(e, s4) := parse_exponent s3 in
    Some (mkDecimal sign v2 (e - nfrac), s4).

(** [case_insensitive_match]: [s] starts with [word] (given in lower
    case), whatever the case of its letters; the text after it. *)
Fixpoint match_word (word s : string) : option string :=
  match word, s with
  | EmptyString, _ => Some s
  | String w word', String c rest =>
      if Ascii.eqb (lower_char c) w then match_word word' rest else None
  | String _ _, EmptyString => None
  end.

Definition parse_inf_or_nan (s : string) : option (spec_float * string) :=
  let '(sign, s1) := parse_sign s in
  match match_word "inf" s1 with
  | Some rest =>
      match match_word "inity" rest with
      | Some rest' => Some (S754_infinity sign, rest')
      | None => Some (S754_infinity sign, rest)
      end
  | None =>
      match match_word "nan" s1 with
      | Some rest => Some (S754_nan, rest)
      | None => None
      end
  end.

(** [float(s)]; [None] is [ValueError: could not convert string to float]. *)
Definition float_of_string (s : string) : option spec_float :=
  if underscores_ok Ascii.zero s then
    let body := strip_with Py_ISSPACE (remove_char "_" s) in
    match strtod body with
    | Some (d, EmptyString) => Some (round_decimal d)
    | Some (_, String _ _) => None
    | None =>
        match parse_inf_or_nan body with
        | Some (x, EmptyString) => Some x
        | _ => None
        end
    end
  else None.

End PyFloat.

(** [Series.replace({"\$": "", ",": ""}, regex=True)] on one cell: text
    loses every dollar sign and every comma; a number is left as it is. *)
Definition replace_cell (c : cell) : cell :=
  match c with
  | CStr s => CStr (Text.remove_char "," (Text.remove_char "$" s))
  | CNum x => CNum x
  end.

(** [astype(float)] on one cell. *)
Definition astype_float_cell (c : cell) : option spec_float :=
  match c with
  | CStr s => PyFloat.float_of_string s
  | CNum x => Some x
  end.

(** All the cells convert, or the conversion of the column fails. *)
Fixpoint traverse {A B : Type} (f : A -> option B) (l : list A) : option (list B) :=
  match l with
  | [] => Some []
  | a :: rest =>
      match f a with
      | Some b =>
          match traverse f rest with
          | Some bs => Some (b :: bs)
          | None => None
          end
      | None => None
      end
  end.

(** Lines 42-44, on the revenue column; [None] is the [ValueError] of
    [astype] (the spec's [NumericParseError]). *)
Definition clean_revenue (col : list cell) : option (list spec_float) :=
  traverse astype_float_cell (map replace_cell col).

(** ** Forecast assembly (lines 67-71) *)

(** [data.index[-1]]; [None] is the [IndexError] of an empty index. *)
Definition last_index (df : Frame.t) : option Timestamp :=
  match Frame.index df with
  | [] => None
  | k :: rest => Some (last rest k)
  end.

(** Lines 68-70: [pd.date_range(start, periods=n_periods + 1, freq="M")[1:]]. *)
Definition forecast_index (start : Timestamp) (n_periods : nat) : list Timestamp :=
  skipn 1 (date_range start (n_periods + 1)).

(** The exceptions that stop a run. *)
Inductive Error : Type :=
| MissingColumnError   (* [st.stop()] after the [st.error] of line 34 *)
| DateParseError       (* [pd.to_datetime] raised *)
| KeyError             (* no [" Revenue "] column *)
| NumericParseError    (* [astype(float)] raised *)
| ModelFitError        (* [auto_arima] raised *)
| IndexError           (* [data.index[-1]] on an empty frame *)
| LengthMismatchError  (* [pd.Series] raised: values and index differ in length *)
| ReindexError         (* [pd.Series] raised: the prediction repeats a label *)
| PlotError.           (* matplotlib raised *)

(** The label of a row of a pandas series: a date, or an integer
    position. *)
Inductive label : Type :=
| LDate (t : Timestamp)
| LPos (n : Z).

Definition label_eqb (a b : label) : bool :=
  match a, b with
  | LDate t, LDate u => ts_eqb t u
  | LPos n, LPos k => n =? k
  | _, _ => false
  end.

(** What [model.predict] returns: a bare array of values, or a pandas
    series, whose values carry labels of their own. *)
Inductive Prediction : Type :=
| PArray (values : list spec_float)
| PSeries (rows : list (label * spec_float)).

(** [not index.is_unique]. *)
Fixpoint has_duplicates (labels : list label) : bool :=
  match labels with
  | [] => false
  | l :: rest => existsb (label_eqb l) rest || has_duplicates rest
  end.

(** The value a series holds at a label; NaN when it has no such label. *)
Definition value_at (rows : list (label * spec_float)) (l : label) : spec_float :=
  match find (fun r => label_eqb l (fst r)) rows with
  | Some r => snd r
  | None => S754_nan
  end.

(** [series.reindex(idx)]. *)
Definition reindex (rows : list (label * spec_float)) (idx : list Timestamp)
  : Frame.t :=
  map (fun t => (t, value_at rows (LDate t))) idx.

(** Line 71: [pd.Series(forecast, index=forecast_index)]. A bare array is
    paired with the index by position, and a length other than that of
    the index is a [ValueError] (the spec's [LengthMismatchError]). A
    series is aligned on the index by label, whatever its length: a date
    of the index gets the value labelled with that date, NaN when there is
    none; pandas refuses to align a series that repeats a label. *)
Definition make_series (forecast : Prediction) (idx : list Timestamp)
  : Error + Frame.t :=
  match forecast with
  | PArray values =>
      if Nat.eqb (List.length values) (List.length idx)
      then inr (combine idx values)
      else inl LengthMismatchError
  | PSeries rows =>
      if has_duplicates (map fst rows) then inl ReindexError
      else inr (reindex rows idx)
  end.

(** [n_periods = 60] (line 52). *)
Definition n_periods : nat := 60.

(** ** The script, one run after another *)

(** A column of the frame [data]: the revenue column, cleaned to floats,
    or another column of the file, as read. *)
Inductive ColumnData : Type :=
| Floats (values : list spec_float)
| Cells (values : list cell).

(** The frame [data]: its index and its named columns, in file order. *)
Record DataFrame : Type := mkDataFrame {
  df_index : list Timestamp;
  df_columns : list (string * ColumnData)
}.

(** What one call of [ax.plot] is given: a whole frame, of which every
    column is a line, or one series. *)
Inductive Drawn : Type :=
| DrawFrame (data : DataFrame)
| DrawSeries (s : Frame.t).

(** The external capabilities the script calls. [to_datetime] fails on a
    value it cannot parse and [auto_arima] on a series it cannot fit;
    [pyplot] tells whether matplotlib draws a figure of the data given to
    [ax.plot], or raises. *)
Class Externals : Type := {
  Model : Type;
  to_datetime : list cell -> option (list Timestamp);
  auto_arima : Frame.t -> option Model;
  predict : Model -> nat -> Prediction;
  pyplot : list Drawn -> bool
}.

Inductive Page : Type := Welcome | PredictedData | ForecastTable.

(** What a run shows and which external calls it makes, in order. *)
Inductive Event : Type :=
| UiText (what : string)
| UiSidebar
| UiSpinner (message : string)
| UiError (message : string)
| CallFit (series : Frame.t)
| UiSuccess (message : string)
| CallPredict (periods : nat)
| UiSlider
| UiPlot (content : list Drawn)
| UiTable (rows : Frame.t)
| UiDownload (rows : Frame.t).

Section Script.

Context {E : Externals}.

(** [st.session_state]: the two keys the script uses; [None] is an
    absent key. *)
Record SessionState : Type := mkSession {
  model : option Model;
  selected_end_year : option Z
}.

Definition empty_session : SessionState := mkSession None None.

(** A run threads the session state, logs its events and may stop on an
    error; the state reached and the events logged so far survive it. *)
Definition M (A : Type) : Type :=
  SessionState -> (Error + A) * SessionState * list Event.

Definition ret {A : Type} (a : A) : M A := fun ss => (inr a, ss, []).

Definition bind {A B : Type} (m : M A) (f : A -> M B) : M B :=
  fun ss =>
    match m ss with
    | (inl e, ss1, log1) => (inl e, ss1, log1)
    | (inr a, ss1, log1) =>
        let '(r, ss2, log2) := f a ss1 in (r, ss2, log1 ++ log2)
    end.

Definition raise {A : Type} (e : Error) : M A := fun ss => (inl e, ss, []).
Definition emit (ev : Event) : M unit := fun ss => (inr tt, ss, [ev]).
Definition get : M SessionState := fun ss => (inr ss, ss, []).
Definition put (ss : SessionState) : M unit := fun _ => (inr tt, ss, []).

Definition or_raise {A : Type} (o : option A) (e : Error) : M A :=
  match o with Some a => ret a | None => raise e end.

Notation "x <- m ;; k" := (bind m (fun x => k))
  (at level 61, m at next level, right associativity).
Notation "m ;;; k" := (bind m (fun _ => k))
  (at level 61, right associativity).

(** Lines 28-35. *)
Definition normalizer (data : RawTable) : M RawTable :=
  match normalize_columns data with
  | Some data' => ret data'
  | None =>
      emit (UiError "No 'Month' column found in the dataset. Please check the CSV file.") ;;;
      raise MissingColumnError
  end.

Definition lookup_column (name : string) (data : RawTable) : option (list cell) :=
  option_map snd (find (fun c => String.eqb (fst c) name) data).

(** Lines 38-44. *)
Definition loader (data : RawTable) : M Frame.t :=
  months <- or_raise (lookup_column "Month" data) KeyError ;;
  idx <- or_raise (to_datetime months) DateParseError ;;
  cells <- or_raise (lookup_column " Revenue " data) KeyError ;;
  revenue <- or_raise (clean_revenue cells) NumericParseError ;;
  ret (combine idx revenue).

(** Lines 54-66: fit when the session has no model, then read the model
    of the session. *)
Definition trained_model (df : Frame.t) : M Model :=
  ss <- get ;;
  match model ss with
  | Some m => ret m
  | None =>
      emit (UiSpinner "Training ARIMA model...") ;;;
      emit (CallFit df) ;;;
      m <- or_raise (auto_arima df) ModelFitError ;;
      put (mkSession (Some m) (selected_end_year ss)) ;;;
      emit (UiSuccess "Model trained successfully!") ;;;
      ret m
  end.

(** Lines 67-71. *)
Definition forecaster (m : Model) (df : Frame.t) : M Frame.t :=
  emit (CallPredict n_periods) ;;;
  let forecast := predict m n_periods in
  start <- or_raise (last_index df) IndexError ;;
  match make_series forecast (forecast_index start n_periods) with
  | inr forecast_series => ret forecast_series
  | inl e => raise e
  end.

(** [str(n)] for an integer. *)
Definition str_of_int (n : Z) : string := NilZero.string_of_int (Z.to_int n).

(** [range(first, last + 1)]. *)
Definition year_range (first last : Z) : list Z :=
  map (fun i => first + Z.of_nat i) (seq 0 (Z.to_nat (last + 1 - first))).

Definition in_years (first last : Z) (r : Frame.Row) : bool :=
  (first <=? year (fst r)) && (year (fst r) <=? last).

(** The rows line 48 keeps. *)
Definition kept_rows (loaded : Frame.t) : list bool :=
  map negb (Frame.duplicated (Frame.index (align loaded))).

(** The frame [data] after line 49. Its columns are those of the file but
    ["Month"], which line 39 made the index: the revenue column cleaned,
    restricted to the rows kept and filled, every other column as read,
    restricted to the rows kept. *)
Definition whole_frame (data : RawTable) (loaded : Frame.t) : DataFrame :=
  let df := regularize loaded in
  mkDataFrame (Frame.index df)
    (map (fun c =>
            if String.eqb (fst c) " Revenue "
            then (fst c, Floats (Frame.column df))
            else (fst c, Cells (Frame.select (snd c) (kept_rows loaded))))
         (filter (fun c => negb (String.eqb (fst c) "Month")) data)).

(** The calls of [ax.plot] on one figure, then [st.pyplot(fig)]. *)
Definition draw (content : list Drawn) : M unit :=
  if pyplot content then emit (UiPlot content) else raise PlotError.

(** Lines 74-158; [data] is the whole frame, which line 103 plots, and
    [slider] is the year the user picked, when the slider was moved. *)
Definition presenter (page : Page) (slider : option Z)
    (data : DataFrame) (forecast_series : Frame.t) : M unit :=
  ss <- get ;;
  let end_year := match selected_end_year ss with Some y => y | None => 1976 end in
  put (mkSession (model ss) (Some end_year)) ;;;
  match page with
  | Welcome =>
      emit (UiText "## Welcome to the Revenue Forecasting App!") ;;;
      emit (UiText "Navigate to 'Predicted Data' to view the forecast graph or 'Forecast Table' for the data table and download option.")
  | PredictedData =>
      emit (UiText "### 5-Year Revenue Forecast") ;;;
      emit UiSlider ;;;
      let chosen := match slider with Some y => y | None => end_year end in
      put (mkSession (model ss) (Some chosen)) ;;;
      emit (UiText "#### Combined Forecast for Selected Years") ;;;
      draw [DrawFrame data;
            DrawSeries (filter (in_years 1972 chosen) forecast_series)] ;;;
      fold_right
        (fun y rest =>
           emit (UiText (String.append "#### Forecast for " (str_of_int y))) ;;;
           draw [DrawSeries (filter (in_years y y) forecast_series)] ;;; rest)
        (ret tt) (year_range 1972 chosen)
  | ForecastTable =>
      emit (UiText "### Forecasted Revenue Data") ;;;
      let filtered := filter (in_years 1972 end_year) forecast_series in
      emit (UiTable filtered) ;;;
      emit (UiDownload filtered)
  end.

(** One run of the script on the table read from [dataset.csv]. The
    texts are those of the source, without the emoji of the title. *)
Definition script (csv : RawTable) (page : Page) (slider : option Z) : M unit :=
  emit (UiText "5-Year Revenue Forecasting App") ;;;
  emit (UiText "#### Predict revenue trends for the next five years using ARIMA modeling.") ;;;
  emit UiSidebar ;;;
  data <- normalizer csv ;;
  loaded <- loader data ;;
  let df := regularize loaded in
  m <- trained_model df ;;
  forecast_series <- forecaster m df ;;
  presenter page slider (whole_frame data loaded) forecast_series.

(** What the user does before a run: the file on disk, the page chosen
    and the slider. *)
Record Interaction : Type := mkInteraction {
  csv : RawTable;
  page : Page;
  slider : option Z
}.

Definition run (i : Interaction) (ss : SessionState)
  : (Error + unit) * SessionState * list Event :=
  script (csv i) (page i) (slider i) ss.

(** A session: every interaction reruns the script on the session state
    the previous run left. The result is the final state and the log of
    each run. *)
Fixpoint session (inputs : list Interaction) (ss : SessionState)
  : SessionState * list (list Event) :=
  match inputs with
  | [] => (ss, [])
  | i :: rest =>
      let '(_, ss1, log) := run i ss in
      let '(ss2, logs) := session rest ss1 in
      (ss2, log :: logs)
  end.

Definition is_fit (ev : Event) : bool :=
  match ev with CallFit _ => true | _ => false end.

(** How many times a log shows [auto_arima] being called. *)
Definition fit_count (log : list Event) : nat := List.length (filter is_fit log).

Definition is_fitted (ev : Event) : bool :=
  match ev with UiSuccess _ => true | _ => false end.

(** How many times a log shows [auto_arima] returning a model: line 63
    runs right after the model is stored. *)
Definition fitted_count (log : list Event) : nat :=
  List.length (filter is_fitted log).


(** No event of the log is a fit, called or completed. *)
Definition calm (log : list Event) : bool :=
  forallb (fun ev => negb (is_fit ev) && negb (is_fitted ev)) log.

(** A computation that keeps the model of the session as it is, and
    neither calls nor completes a fit. *)
Definition holds {A : Type} (mu : option Model) (c : M A) : Prop :=
  forall ss, model ss = mu ->
    model (snd (fst (c ss))) = mu /\ calm (snd (c ss)) = true.

(** The first fit of a session, seen from a run that starts without a
    model: either no model is stored, or one fit returned it. *)
Definition first_fit {A : Type} (c : M A) : Prop :=
  forall ss, model ss = None ->
    (model (snd (fst (c ss))) = None /\
     fitted_count (snd (c ss)) = 0%nat /\ (fit_count (snd (c ss)) <= 1)%nat) \/
    (exists m, model (snd (fst (c ss))) = Some m /\
     fitted_count (snd (c ss)) = 1%nat /\ fit_count (snd (c ss)) = 1%nat).

End Script.

(** ** The vocabulary of the properties *)

(** A key of a regularized series: the last day of a calendar month. *)
Definition month_end_key (t : Timestamp) : Prop :=
  1 <= month t <= 12 /\ is_on_offset t = true.

Definition strictly_increasing (idx : list Timestamp) : Prop :=
  StronglySorted ts_lt idx.

Definition one_entry_per_month (idx : list Timestamp) : Prop :=
  NoDup (map month_ordinal idx).

(** Every calendar month between two months of the index is in the index. *)
Definition no_month_gaps (idx : list Timestamp) : Prop :=
  forall a b o, In a idx -> In b idx ->
    month_ordinal a <= o <= month_ordinal b ->
    exists c, In c idx /\ month_ordinal c = o.

Definition no_missing (col : list spec_float) : Prop :=
  Forall (fun x => Frame.isna x = false) col.

(** The CanonicalSeries invariant of the data model. *)
Definition CanonicalSeries (df : Frame.t) : Prop :=
  Forall month_end_key (Frame.index df) /\
  strictly_increasing (Frame.index df) /\
  one_entry_per_month (Frame.index df) /\
  no_month_gaps (Frame.index df) /\
  no_missing (Frame.column df).

(** The rows come one per calendar month, each month right after the one
    of the row before. *)
Definition consecutive_months (idx : list Timestamp) : Prop :=
  forall i a b, nth_error idx i = Some a -> nth_error idx (S i) = Some b ->
    month_ordinal b = month_ordinal a + 1.

(** The first row of a frame with the key [k]. *)
Definition first_row (k : Timestamp) (df : Frame.t) : option Frame.Row :=
  find (fun r => ts_eqb (fst r) k) df.

(** Deduplication written as one pass over the rows; [seen] holds the
    keys met so far. *)
Fixpoint dedup_from (seen : list Timestamp) (df : Frame.t) : Frame.t :=
  match df with
  | [] => []
  | r :: rest =>
      if existsb (ts_eqb (fst r)) seen then dedup_from (fst r :: seen) rest
      else r :: dedup_from (fst r :: seen) rest
  end.

(** Forward fill written on the rows. *)
Fixpoint fill_rows (last : option spec_float) (df : Frame.t) : Frame.t :=
  match df with
  | [] => []
  | (k, x) :: rest =>
      if Frame.isna x then
        match last with
        | Some v => (k, v) :: fill_rows last rest
        | None => (k, x) :: fill_rows last rest
        end
      else (k, x) :: fill_rows (Some x) rest
  end.

(** The binary64 value of a float literal. *)
Definition f64 (x : float) : spec_float := Prim2SF x.

(** A calendar date at midnight. *)
Definition date (y m d : Z) : Timestamp := mkTimestamp y m d 0.


Fixpoint string_forall (p : ascii -> bool) (s : string) : bool :=
  match s with
  | EmptyString => true
  | String c rest => p c && string_forall p rest
  end.

(** An index of month ends that advances one calendar month per row,
    from the month [o]. *)
Definition monthly_from (o : Z) (idx : list Timestamp) : Prop :=
  forall i a, nth_error idx i = Some a ->
    month_end_key a /\ month_ordinal a = o + Z.of_nat i.

(** *** What [float] reads and what it returns *)


















(** ** Sample data and a stand-in for the external capabilities *)

(** A date written [YYYY-MM-DD]. *)
Definition iso_date (c : cell) : option Timestamp :=
  match c with
  | CNum _ => None
  | CStr s =>
      let '(y, ny, r1) := PyFloat.scan_digits 0 0 s in
      match r1 with
      | String c1 r2 =>
          let '(m, nm, r3) := PyFloat.scan_digits 0 0 r2 in
          match r3 with
          | String c2 r4 =>
              let '(d, nd, r5) := PyFloat.scan_digits 0 0 r4 in
              if Ascii.eqb c1 "-" && Ascii.eqb c2 "-" &&
                 (ny =? 4) && (nm =? 2) && (nd =? 2) && String.eqb r5 ""
              then Some (date y m d) else None
          | EmptyString => None
          end
      | EmptyString => None
      end
  end.

(** Dates are read in the ISO format. A series of fewer than 24 points,
    two seasonal cycles, cannot be fitted; the model is the last value
    seen, which it forecasts at every step, as a bare array. Every figure
    is drawn. *)
Definition flat_externals : Externals := {|
  Model := spec_float;
  to_datetime := traverse iso_date;
  auto_arima := fun df =>
    if Nat.ltb (List.length df) 24 then None
    else Some (last (Frame.column df) S754_nan);
  predict := fun m n => PArray (repeat m n);
  pyplot := fun _ => true
|}.

(** The forecast of a model fitted on quarterly data, as pmdarima 2
    returns it for a pandas series: a series labelled with the quarter
    ends that follow the last date of the training data. *)
Definition quarterly_forecast (last : Timestamp) (n : nat)
  : list (label * spec_float) :=
  map (fun i => (LDate (MonthEnd (3 * (Z.of_nat i + 1)) last), f64 100))
      (seq 0 n).

(** A stand-in whose model is the labelled forecast it returns. *)
Definition labelled_externals : Externals := {|
  Model := list (label * spec_float);
  to_datetime := traverse iso_date;
  auto_arima := fun df =>
    match last_index df with
    | Some last => Some (quarterly_forecast last 60)
    | None => None
    end;
  predict := fun m n => PSeries m;
  pyplot := fun _ => true
|}.

(** Twelve years of quarterly revenue, dated on the first day of each
    quarter from 1960-01-01 to 1971-10-01. *)
Definition quarterly_rows : Frame.t :=
  map (fun i => (date (1960 + Z.of_nat i / 4) (3 * (Z.of_nat i mod 4) + 1) 1,
                 f64 100))
      (seq 0 48).

Definition skipped_month : Frame.t :=
  [(date 1972 1 1, f64 100); (date 1972 3 1, f64 120)].

Definition unordered_rows : Frame.t :=
  [(date 1972 3 1, S754_nan); (date 1972 1 1, f64 100)].

Definition three_months : Frame.t :=
  [(date 1972 1 1, f64 100); (date 1972 2 1, S754_nan); (date 1972 3 1, f64 120)].

Definition one_row : Frame.t := [(date 1972 1 1, f64 100)].

Definition sample_table : RawTable :=
  [("id"%string, [CNum (f64 1)]);
   (" MONTH "%string, [CStr "1972-01-01"]);
   (" Revenue "%string, [CStr "$1,000.00"])].

(** A file with its header and no row. *)
Definition empty_csv : RawTable :=
  [("Month"%string, []); (" Revenue "%string, [])].

(** A file of three years of monthly revenue. *)
Definition monthly_csv : RawTable :=
  [("month"%string,
    [CStr "1972-01-01"; CStr "1972-02-01"; CStr "1972-03-01";
     CStr "1972-04-01"; CStr "1972-05-01"; CStr "1972-06-01";
     CStr "1972-07-01"; CStr "1972-08-01"; CStr "1972-09-01";
     CStr "1972-10-01"; CStr "1972-11-01"; CStr "1972-12-01";
     CStr "1973-01-01"; CStr "1973-02-01"; CStr "1973-03-01";
     CStr "1973-04-01"; CStr "1973-05-01"; CStr "1973-06-01";
     CStr "1973-07-01"; CStr "1973-08-01"; CStr "1973-09-01";
     CStr "1973-10-01"; CStr "1973-11-01"; CStr "1973-12-01";
     CStr "1974-01-01"; CStr "1974-02-01"; CStr "1974-03-01";
     CStr "1974-04-01"; CStr "1974-05-01"; CStr "1974-06-01";
     CStr "1974-07-01"; CStr "1974-08-01"; CStr "1974-09-01";
     CStr "1974-10-01"; CStr "1974-11-01"; CStr "1974-12-01"]);
   (" Revenue "%string,
    [CStr "$1,000.00"; CStr "$1,010.00"; CStr "$1,020.00";
     CStr "$1,030.00"; CStr "$1,040.00"; CStr "$1,050.00";
     CStr "$1,060.00"; CStr "$1,070.00"; CStr "$1,080.00";
     CStr "$1,090.00"; CStr "$1,100.00"; CStr "$1,110.00";
     CStr "$1,120.00"; CStr "$1,130.00"; CStr "$1,140.00";
     CStr "$1,150.00"; CStr "$1,160.00"; CStr "$1,170.00";
     CStr "$1,180.00"; CStr "$1,190.00"; CStr "$1,200.00";
     CStr "$1,210.00"; CStr "$1,220.00"; CStr "$1,230.00";
     CStr "$1,240.00"; CStr "$1,250.00"; CStr "$1,260.00";
     CStr "$1,270.00"; CStr "$1,280.00"; CStr "$1,290.00";
     CStr "$1,300.00"; CStr "$1,310.00"; CStr "$1,320.00";
     CStr "$1,330.00"; CStr "$1,340.00"; CStr "$1,350.00"])].

(** What the loader reads from it. *)
Definition monthly_frame : Frame.t :=
  map (fun i => (date (1972 + Z.of_nat i / 12) (Z.of_nat i mod 12 + 1) 1,
                 PyFloat.round_decimal
                   (PyFloat.mkDecimal false (1000 + 10 * Z.of_nat i) 0)))
      (seq 0 36).

#[local] Set Warnings "-inexact-float".

(** ** Further vocabulary *)

(** The time of day is within the day. *)
Definition time_of_day_ok (t : Timestamp) : Prop :=
  0 <= nanos t < 86400000000000.

(** A text without its dollar signs and commas. *)
Definition clean_text (s : string) : string :=
  Text.remove_char "," (Text.remove_char "$" s).

(** A dollar sign, a comma or white space. *)
Definition blank_or_mark (c : ascii) : bool :=
  Ascii.eqb c "$" || Ascii.eqb c "," || Text.Py_ISSPACE c.

(** What lines 11-22 show at the start of every run. *)
Definition headers : list Event :=
  [UiText "5-Year Revenue Forecasting App";
   UiText "#### Predict revenue trends for the next five years using ARIMA modeling.";
   UiSidebar].

(** What lines 54-63 log when the fit returns. *)
Definition fit_events (df : Frame.t) : list Event :=
  [UiSpinner "Training ARIMA model..."; CallFit df;
   UiSuccess "Model trained successfully!"].

Section ScriptParts.

Context {E : Externals}.

(** What follows the three headers of a run. *)
Definition body (i : Interaction) : M unit :=
  bind (normalizer (csv i)) (fun data =>
  bind (loader data) (fun loaded =>
  bind (trained_model (regularize loaded)) (fun m =>
  bind (forecaster m (regularize loaded)) (fun forecast_series =>
  presenter (page i) (slider i) (whole_frame data loaded) forecast_series)))).

End ScriptParts.

Definition bad_revenue_csv : RawTable :=
  [("Month"%string, [CStr "1972-01-01"; CStr "1972-02-01"]);
   (" Revenue "%string, [CStr "$1,000.00"; CStr "abc"])].

(** * Properties *)

Import Text PyFloat.

(** ** Calendar *)

Lemma ts_eqb_eq (a b : Timestamp) : ts_eqb a b = true <-> a = b.
Proof.
  unfold ts_eqb. destruct a, b; simpl.
  rewrite !andb_true_iff, !Z.eqb_eq.
  split.
  - intros [[[-> ->] ->] ->]. reflexivity.
  - intros H. injection H as -> -> -> ->. auto.
Qed.

Lemma ts_eqb_refl (a : Timestamp) : ts_eqb a a = true.
Proof. apply ts_eqb_eq. reflexivity. Qed.

Lemma existsb_ts_In (k : Timestamp) (l : list Timestamp) :
  existsb (ts_eqb k) l = true <-> In k l.
Proof.
  rewrite existsb_exists. split.
  - intros [x [Hin Heq]]. apply ts_eqb_eq in Heq. subst. exact Hin.
  - intros Hin. exists k. split; [exact Hin | apply ts_eqb_refl].
Qed.

Lemma existsb_ts_not_In (k : Timestamp) (l : list Timestamp) :
  existsb (ts_eqb k) l = false <-> ~ In k l.
Proof.
  rewrite <- existsb_ts_In. destruct (existsb (ts_eqb k) l); split; congruence.
Qed.

Lemma month_add_months_range (t : Timestamp) (k : Z) :
  1 <= month_add_months t k <= 12.
Proof.
  unfold month_add_months.
  pose proof (Z.mod_pos_bound (month t + k) 12 ltac:(lia)) as Hb.
  destruct (Z.eqb_spec ((month t + k) mod 12) 0); lia.
Qed.

(** Moving by [k] months moves the calendar month by [k]. *)
Lemma month_ordinal_shift (t : Timestamp) (k : Z) :
  month_ordinal (shift_months_end t k) = month_ordinal t + k.
Proof.
  unfold month_ordinal, shift_months_end, year_add_months, month_add_months.
  cbn [year month].
  pose proof (Z.div_mod (month t + k - 1) 12 ltac:(lia)) as Hd.
  pose proof (Z.mod_pos_bound (month t + k - 1) 12 ltac:(lia)) as Hb.
  pose proof (Z.div_mod (month t + k) 12 ltac:(lia)) as Hd'.
  pose proof (Z.mod_pos_bound (month t + k) 12 ltac:(lia)) as Hb'.
  generalize dependent ((month t + k - 1) / 12).
  generalize dependent ((month t + k - 1) mod 12).
  generalize dependent ((month t + k) / 12).
  generalize dependent ((month t + k) mod 12).
  intros D C Hd' Hb' B A Hd Hb.
  destruct (Z.eqb_spec D 0) as [H0 | H0]; lia.
Qed.

Lemma shift_months_end_key (t : Timestamp) (k : Z) :
  month_end_key (shift_months_end t k).
Proof.
  split.
  - apply month_add_months_range.
  - unfold is_on_offset, shift_months_end. simpl. apply Z.eqb_refl.
Qed.

Lemma MonthEnd_key (n : Z) (t : Timestamp) : month_end_key (MonthEnd n t).
Proof. apply shift_months_end_key. Qed.

Lemma MonthEnd_nanos (n : Z) (t : Timestamp) : nanos (MonthEnd n t) = nanos t.
Proof. reflexivity. Qed.

(** From a month end, [MonthEnd n] moves by exactly [n] months. *)
Lemma MonthEnd_on_offset (n : Z) (t : Timestamp) :
  is_on_offset t = true -> MonthEnd n t = shift_months_end t n.
Proof.
  unfold is_on_offset, MonthEnd, roll_convention. intros H.
  apply Z.eqb_eq in H. rewrite <- H.
  rewrite Z.ltb_irrefl, andb_false_r, andb_false_r. reflexivity.
Qed.

(** From a well-formed date, [MonthEnd (-1)] lands in the month before. *)
Lemma MonthEnd_back_valid (t : Timestamp) :
  day t <= get_days_in_month (year t) (month t) ->
  MonthEnd (-1) t = shift_months_end t (-1).
Proof.
  unfold MonthEnd, roll_convention. intros H. simpl.
  destruct (Z.ltb_spec (get_days_in_month (year t) (month t)) (day t)); [lia |].
  reflexivity.
Qed.

(** A key is determined by its calendar month and its time of day. *)
Lemma month_end_key_inj (a b : Timestamp) :
  month_end_key a -> month_end_key b ->
  month_ordinal a = month_ordinal b -> nanos a = nanos b -> a = b.
Proof.
  unfold month_end_key, is_on_offset, month_ordinal.
  intros [Ha Ha'] [Hb Hb'] Ho Hn.
  apply Z.eqb_eq in Ha', Hb'.
  assert (year a = year b) by lia.
  assert (month a = month b) by lia.
  destruct a, b; simpl in *. subst. reflexivity.
Qed.

(** Keys compare as their calendar months do. *)
Lemma month_ordinal_lt (a b : Timestamp) :
  1 <= month a <= 12 -> 1 <= month b <= 12 ->
  month_ordinal a < month_ordinal b -> ts_lt a b.
Proof.
  unfold month_ordinal, ts_lt, ts_ltb, ts_compare. intros Ha Hb Ho.
  destruct (Z.compare_spec (year a) (year b)) as [Hy | Hy | Hy]; try lia; auto.
  destruct (Z.compare_spec (month a) (month b)); try lia; auto.
Qed.

Lemma ts_lt_irrefl (a : Timestamp) : ~ ts_lt a a.
Proof.
  unfold ts_lt, ts_ltb, ts_compare. rewrite !Z.compare_refl. discriminate.
Qed.

(** ** The three steps of the regularizer, row by row *)

Lemma index_combine (idx : list Timestamp) (col : list spec_float) :
  List.length idx = List.length col -> Frame.index (combine idx col) = idx.
Proof.
  unfold Frame.index. revert col.
  induction idx as [| k idx IH]; intros [| x col] Hlen; simpl in *;
    try discriminate; try reflexivity.
  f_equal. apply IH. lia.
Qed.

Lemma column_combine (idx : list Timestamp) (col : list spec_float) :
  List.length idx = List.length col -> Frame.column (combine idx col) = col.
Proof.
  unfold Frame.column. revert col.
  induction idx as [| k idx IH]; intros [| x col] Hlen; simpl in *;
    try discriminate; try reflexivity.
  f_equal. apply IH. lia.
Qed.

(** Line 47 moves the key of every row and nothing else. *)
Lemma align_rows (df : Frame.t) :
  align df = map (fun r => (MonthEnd (-1) (fst r), snd r)) df.
Proof.
  unfold align, Frame.set_index, Frame.index, Frame.column.
  induction df as [| [k x] df IH]; simpl; [reflexivity |].
  f_equal. exact IH.
Qed.

Lemma index_align (df : Frame.t) :
  Frame.index (align df) = map (MonthEnd (-1)) (Frame.index df).
Proof.
  rewrite align_rows. unfold Frame.index. rewrite !map_map. reflexivity.
Qed.

Lemma column_align (df : Frame.t) : Frame.column (align df) = Frame.column df.
Proof.
  rewrite align_rows. unfold Frame.column. rewrite map_map. reflexivity.
Qed.

(** Line 48 is one pass that keeps a row when its key was not met yet. *)
Lemma select_dedup_from (seen : list Timestamp) (df : Frame.t) :
  Frame.select df (map negb (Frame.duplicated_from seen (Frame.index df)))
  = dedup_from seen df.
Proof.
  revert seen. induction df as [| r df IH]; intros seen; simpl; [reflexivity |].
  destruct (existsb (ts_eqb (fst r)) seen); simpl; rewrite IH; reflexivity.
Qed.

Lemma drop_duplicates_rows (df : Frame.t) :
  drop_duplicates df = dedup_from [] df.
Proof. apply select_dedup_from. Qed.

(** Line 49 is one pass that carries the last valid value. *)
Lemma combine_fill_rows (last : option spec_float) (df : Frame.t) :
  combine (Frame.index df) (Frame.ffill_from last (Frame.column df))
  = fill_rows last df.
Proof.
  revert last. induction df as [| [k x] df IH]; intros last; simpl;
    [reflexivity |].
  destruct (Frame.isna x); [destruct last |]; simpl; rewrite IH; reflexivity.
Qed.

Lemma fill_missing_rows (df : Frame.t) : fill_missing df = fill_rows None df.
Proof. apply combine_fill_rows. Qed.

Lemma regularize_rows (df : Frame.t) :
  regularize df = fill_rows None (dedup_from [] (align df)).
Proof.
  unfold regularize. rewrite fill_missing_rows, drop_duplicates_rows.
  reflexivity.
Qed.

(** *** Deduplication *)

Lemma ts_eq_dec (a b : Timestamp) : a = b \/ a <> b.
Proof.
  destruct (ts_eqb a b) eqn:H.
  - left. apply ts_eqb_eq. exact H.
  - right. intros ->. rewrite ts_eqb_refl in H. discriminate.
Qed.

Lemma In_index_dedup_from (seen : list Timestamp) (df : Frame.t) (k : Timestamp) :
  In k (Frame.index (dedup_from seen df)) <->
  In k (Frame.index df) /\ ~ In k seen.
Proof.
  revert seen. induction df as [| r df IH]; intros seen; simpl.
  - tauto.
  - destruct (ts_eq_dec (fst r) k) as [Heq | Hne];
      destruct (existsb (ts_eqb (fst r)) seen) eqn:Hseen;
      [apply existsb_ts_In in Hseen | apply existsb_ts_not_In in Hseen
      | apply existsb_ts_In in Hseen | apply existsb_ts_not_In in Hseen];
      simpl; rewrite IH; simpl; subst; tauto.
Qed.

Lemma NoDup_index_dedup_from (seen : list Timestamp) (df : Frame.t) :
  NoDup (Frame.index (dedup_from seen df)).
Proof.
  revert seen. induction df as [| r df IH]; intros seen; simpl.
  - constructor.
  - destruct (existsb (ts_eqb (fst r)) seen); [apply IH |].
    simpl. constructor; [| apply IH].
    rewrite In_index_dedup_from. simpl. tauto.
Qed.

(** A frame without a repeated key goes through unchanged. *)
Lemma dedup_from_NoDup (seen : list Timestamp) (df : Frame.t) :
  NoDup (Frame.index df) ->
  (forall k, In k (Frame.index df) -> ~ In k seen) ->
  dedup_from seen df = df.
Proof.
  revert seen. induction df as [| r df IH]; intros seen Hnd Hseen; simpl;
    [reflexivity |].
  simpl in Hnd. inversion Hnd as [| ? ? Hnotin Hnd']; subst.
  destruct (existsb (ts_eqb (fst r)) seen) eqn:Hex.
  - apply existsb_ts_In in Hex. exfalso. apply (Hseen (fst r)); simpl; auto.
  - f_equal. apply IH; [exact Hnd' |].
    intros k Hin [<- | Hk]; [tauto |]. apply (Hseen k); simpl; auto.
Qed.

(** The row kept for a key is the first row of the input with that key. *)
Lemma first_row_dedup_from (seen : list Timestamp) (df : Frame.t) (k : Timestamp) :
  ~ In k seen -> first_row k (dedup_from seen df) = first_row k df.
Proof.
  unfold first_row.
  revert seen. induction df as [| r df IH]; intros seen Hk; simpl;
    [reflexivity |].
  destruct (ts_eq_dec (fst r) k) as [Heq | Hne].
  - subst k. rewrite ts_eqb_refl.
    apply existsb_ts_not_In in Hk. rewrite Hk. simpl.
    rewrite ts_eqb_refl. reflexivity.
  - assert (Hb : ts_eqb (fst r) k = false).
    { destruct (ts_eqb (fst r) k) eqn:H; [| reflexivity].
      apply ts_eqb_eq in H. contradiction. }
    rewrite Hb.
    destruct (existsb (ts_eqb (fst r)) seen); simpl; rewrite ?Hb;
      apply IH; simpl; tauto.
Qed.

Lemma dedup_from_select (seen : list Timestamp) (df : Frame.t) :
  exists mask, List.length mask = List.length df /\
               dedup_from seen df = Frame.select df mask.
Proof.
  exists (map negb (Frame.duplicated_from seen (Frame.index df))).
  split; [| symmetry; apply select_dedup_from].
  rewrite length_map. unfold Frame.index.
  revert seen. induction df as [| r df IH]; intros seen; simpl; [reflexivity |].
  f_equal. apply IH.
Qed.

(** *** Forward fill *)

Lemma index_fill_rows (last : option spec_float) (df : Frame.t) :
  Frame.index (fill_rows last df) = Frame.index df.
Proof.
  unfold Frame.index.
  revert last. induction df as [| [k x] df IH]; intros last; simpl;
    [reflexivity |].
  destruct (Frame.isna x); [destruct last |]; simpl; rewrite IH; reflexivity.
Qed.

(** With a valid value to carry, nothing stays missing. *)
Lemma fill_rows_Some_no_missing (v : spec_float) (df : Frame.t) :
  Frame.isna v = false -> no_missing (Frame.column (fill_rows (Some v) df)).
Proof.
  unfold no_missing, Frame.column.
  revert v. induction df as [| [k x] df IH]; intros v Hv; simpl;
    [constructor |].
  destruct (Frame.isna x) eqn:Hx; simpl; constructor; auto.
Qed.

Lemma fill_rows_idem (last : option spec_float) (df : Frame.t) :
  (forall v, last = Some v -> Frame.isna v = false) ->
  fill_rows last (fill_rows last df) = fill_rows last df.
Proof.
  revert last. induction df as [| [k x] df IH]; intros last Hlast; simpl;
    [reflexivity |].
  destruct (Frame.isna x) eqn:Hx.
  - destruct last as [v |]; simpl.
    + rewrite (Hlast v eq_refl). f_equal. apply IH.
      intros w Hw. injection Hw as <-. apply Hlast. reflexivity.
    + rewrite Hx. f_equal. apply IH. exact Hlast.
  - simpl. rewrite Hx. f_equal. apply IH.
    intros w Hw. injection Hw as <-. exact Hx.
Qed.

(** A row with a valid value is found unchanged after the fill. *)
Lemma first_row_fill_rows (last : option spec_float) (df : Frame.t)
    (k : Timestamp) (x : spec_float) :
  first_row k df = Some (k, x) -> Frame.isna x = false ->
  first_row k (fill_rows last df) = Some (k, x).
Proof.
  unfold first_row.
  revert last. induction df as [| [k' y] df IH]; intros last Hfind Hx; simpl in *;
    [discriminate |].
  destruct (ts_eqb k' k) eqn:Heq.
  - injection Hfind as -> ->. rewrite Hx. simpl. rewrite Heq. reflexivity.
  - destruct (Frame.isna y); [destruct last |]; simpl; rewrite Heq;
      apply IH; assumption.
Qed.

(** ** Lists read by position *)

Lemma StronglySorted_nth_error {A : Type} (R : A -> A -> Prop) (l : list A) :
  (forall i j a b, (i < j)%nat ->
     nth_error l i = Some a -> nth_error l j = Some b -> R a b) ->
  StronglySorted R l.
Proof.
  induction l as [| x l IH]; intros H; constructor.
  - apply IH. intros i j a b Hij Ha Hb. apply (H (S i) (S j)); auto. lia.
  - apply Forall_forall. intros b Hb.
    destruct (In_nth_error _ _ Hb) as [j Hj].
    apply (H O (S j)); auto. lia.
Qed.

Lemma nth_error_map_inv {A B : Type} (f : A -> B) (l : list A) (i : nat) (b : B) :
  nth_error (map f l) i = Some b ->
  exists a, nth_error l i = Some a /\ b = f a.
Proof.
  rewrite nth_error_map. destruct (nth_error l i) as [a |]; simpl; [| discriminate].
  intros H. injection H as <-. exists a. auto.
Qed.

Lemma NoDup_map_on {A B : Type} (f : A -> B) (l : list A) :
  (forall a b, In a l -> In b l -> f a = f b -> a = b) ->
  NoDup l -> NoDup (map f l).
Proof.
  induction l as [| x l IH]; intros Hinj Hnd; simpl; [constructor |].
  inversion Hnd as [| ? ? Hx Hl]; subst. constructor.
  - intros Hin. apply in_map_iff in Hin. destruct Hin as [y [Hy Hin]].
    apply Hinj in Hy; simpl; auto. subst. contradiction.
  - apply IH; [| exact Hl]. intros a b Ha Hb. apply Hinj; simpl; auto.
Qed.

(** ** An index that advances one calendar month per row *)

Lemma consecutive_months_ordinal (idx : list Timestamp) (k0 : Timestamp) :
  hd_error idx = Some k0 -> consecutive_months idx ->
  forall i a, nth_error idx i = Some a ->
    month_ordinal a = month_ordinal k0 + Z.of_nat i.
Proof.
  intros Hhd Hc i. induction i as [| i IH]; intros a Ha.
  - destruct idx; simpl in *; [discriminate |].
    injection Hhd as <-. injection Ha as <-. lia.
  - destruct (nth_error idx i) as [b |] eqn:Hb.
    + rewrite (Hc i b a Hb Ha), (IH b eq_refl). lia.
    + apply nth_error_None in Hb.
      assert (Hn : nth_error idx (S i) = None) by (apply nth_error_None; lia).
      congruence.
Qed.

Lemma monthly_from_increasing (o : Z) (idx : list Timestamp) :
  monthly_from o idx -> strictly_increasing idx.
Proof.
  intros H. apply StronglySorted_nth_error. intros i j a b Hij Ha Hb.
  destruct (H i a Ha) as [[Hma _] Hoa]. destruct (H j b Hb) as [[Hmb _] Hob].
  apply month_ordinal_lt; auto. lia.
Qed.

Lemma monthly_from_one_per_month (o : Z) (idx : list Timestamp) :
  monthly_from o idx -> one_entry_per_month idx.
Proof.
  intros H. unfold one_entry_per_month. apply NoDup_nth_error.
  intros i j Hi Heq. rewrite length_map in Hi.
  destruct (nth_error idx i) as [a |] eqn:Ha;
    [| apply nth_error_None in Ha; lia].
  rewrite !nth_error_map, Ha in Heq. simpl in Heq.
  destruct (nth_error idx j) as [b |] eqn:Hb; simpl in Heq; [| discriminate].
  injection Heq as Heq.
  destruct (H i a Ha) as [_ Hoa]. destruct (H j b Hb) as [_ Hob]. lia.
Qed.

Lemma monthly_from_no_gaps (o : Z) (idx : list Timestamp) :
  monthly_from o idx -> no_month_gaps idx.
Proof.
  intros H a b m Ha Hb Hm.
  destruct (In_nth_error _ _ Ha) as [i Hi].
  destruct (In_nth_error _ _ Hb) as [j Hj].
  destruct (H i a Hi) as [_ Hoa]. destruct (H j b Hj) as [_ Hob].
  assert (Hlt : (j < List.length idx)%nat)
    by (apply nth_error_Some; congruence).
  destruct (nth_error idx (Z.to_nat (m - o))) as [c |] eqn:Hc.
  - exists c. split; [eapply nth_error_In; eauto |].
    destruct (H _ c Hc) as [_ Hoc]. lia.
  - apply nth_error_None in Hc. lia.
Qed.

Lemma monthly_from_NoDup (o : Z) (idx : list Timestamp) :
  monthly_from o idx -> NoDup idx.
Proof.
  intros H. apply (NoDup_map_inv month_ordinal).
  apply (monthly_from_one_per_month o). exact H.
Qed.

Lemma monthly_from_keys (o : Z) (idx : list Timestamp) :
  monthly_from o idx -> Forall month_end_key idx.
Proof.
  intros H. apply Forall_forall. intros a Ha.
  destruct (In_nth_error _ _ Ha) as [i Hi]. apply (H i a Hi).
Qed.

(** ** Series regularizer: what its output satisfies *)

Lemma index_regularize (df : Frame.t) :
  Frame.index (regularize df) = Frame.index (dedup_from [] (align df)).
Proof. rewrite regularize_rows. apply index_fill_rows. Qed.

Lemma regularize_NoDup (df : Frame.t) : NoDup (Frame.index (regularize df)).
Proof. rewrite index_regularize. apply NoDup_index_dedup_from. Qed.

Lemma regularize_keys (df : Frame.t) :
  Forall month_end_key (Frame.index (regularize df)).
Proof.
  rewrite index_regularize. apply Forall_forall. intros k Hk.
  apply In_index_dedup_from in Hk. destruct Hk as [Hk _].
  rewrite index_align in Hk. apply in_map_iff in Hk.
  destruct Hk as [k0 [<- _]]. apply MonthEnd_key.
Qed.

Lemma no_missing_nth (col : list spec_float) (j : nat) (y : spec_float) :
  no_missing col -> nth_error col j = Some y -> Frame.isna y = false.
Proof.
  unfold no_missing. rewrite Forall_forall. intros H Hy.
  apply H. eapply nth_error_In. exact Hy.
Qed.

(** After the fill, a valid value is never followed by a missing one. *)
Lemma fill_rows_valid_onwards (last : option spec_float) (df : Frame.t)
    (i j : nat) (x y : spec_float) :
  (i <= j)%nat ->
  nth_error (Frame.column (fill_rows last df)) i = Some x ->
  Frame.isna x = false ->
  nth_error (Frame.column (fill_rows last df)) j = Some y ->
  Frame.isna y = false.
Proof.
  revert last i j. induction df as [| [k z] df IH]; intros last i j Hij Hx Hna Hy.
  - destruct i; discriminate.
  - destruct i as [| i].
    + simpl in Hx, Hy.
      destruct (Frame.isna z) eqn:Hz; [destruct last as [v |] |];
        simpl in Hx, Hy; injection Hx as Hx; subst x; try congruence;
        (destruct j as [| j]; simpl in Hy;
         [injection Hy as <-; assumption
         | eapply no_missing_nth;
           [apply fill_rows_Some_no_missing | exact Hy]; assumption]).
    + destruct j as [| j]; [lia |].
      simpl in Hx, Hy.
      destruct (Frame.isna z); [destruct last |]; simpl in Hx, Hy;
        (eapply (IH _ i j); [lia | exact Hx | exact Hna | exact Hy]).
Qed.

Lemma fill_rows_first_valid (df : Frame.t) :
  (forall x, hd_error (Frame.column df) = Some x -> Frame.isna x = false) ->
  no_missing (Frame.column (fill_rows None df)).
Proof.
  destruct df as [| [k x] df]; intros H; simpl.
  - constructor.
  - rewrite (H x eq_refl). simpl. constructor; [apply H; reflexivity |].
    apply fill_rows_Some_no_missing. apply H. reflexivity.
Qed.

(** Well-formed input dates, one per month in order, are moved onto the
    month ends of the months before. *)
Lemma align_monthly (df : Frame.t) (k0 : Timestamp) :
  hd_error (Frame.index df) = Some k0 ->
  Forall valid_ts (Frame.index df) ->
  consecutive_months (Frame.index df) ->
  monthly_from (month_ordinal k0 - 1) (Frame.index (align df)).
Proof.
  intros Hhd Hvalid Hcons i a Ha.
  rewrite index_align in Ha. apply nth_error_map_inv in Ha.
  destruct Ha as [b [Hb ->]]. split; [apply MonthEnd_key |].
  rewrite Forall_forall in Hvalid.
  assert (Hvb : valid_ts b) by (apply Hvalid; eapply nth_error_In; eauto).
  destruct Hvb as [_ [[_ Hday] _]].
  rewrite (MonthEnd_back_valid b Hday), month_ordinal_shift.
  rewrite (consecutive_months_ordinal _ k0 Hhd Hcons i b Hb). lia.
Qed.

Lemma regularize_canonical (df : Frame.t) :
  Forall valid_ts (Frame.index df) ->
  consecutive_months (Frame.index df) ->
  (forall x, hd_error (Frame.column df) = Some x -> Frame.isna x = false) ->
  CanonicalSeries (regularize df).
Proof.
  intros Hvalid Hcons Hfirst.
  destruct df as [| [k0 x0] df'] eqn:Hdf.
  - repeat split; try constructor. intros a b o [].
  - rewrite <- Hdf in *.
    assert (Hhd : hd_error (Frame.index df) = Some k0) by (subst; reflexivity).
    pose proof (align_monthly df k0 Hhd Hvalid Hcons) as Hm.
    assert (Hid : dedup_from [] (align df) = align df).
    { apply dedup_from_NoDup; [| intros k _ []].
      eapply monthly_from_NoDup. exact Hm. }
    unfold CanonicalSeries.
    rewrite index_regularize, Hid, regularize_rows, Hid.
    split; [eapply monthly_from_keys; eauto |].
    split; [eapply monthly_from_increasing; eauto |].
    split; [eapply monthly_from_one_per_month; eauto |].
    split; [eapply monthly_from_no_gaps; eauto |].
    apply fill_rows_first_valid. rewrite column_align. exact Hfirst.
Qed.

(** C1, as the code has it. For every input series the regularized
    series has pairwise distinct keys, each of them the last day of a
    calendar month, and no missing revenue after the first valid one.
    When the input dates are well formed and come one per calendar month,
    in order and with no month skipped, and the first revenue is there,
    the output satisfies the CanonicalSeries invariant: month ends in
    strictly increasing order, one entry per calendar month, no gap
    between the first and the last month, no missing revenue. *)
Theorem regularize_invariant (df : Frame.t) :
  NoDup (Frame.index (regularize df)) /\
  Forall month_end_key (Frame.index (regularize df)) /\
  (forall i j x y, (i <= j)%nat ->
     nth_error (Frame.column (regularize df)) i = Some x ->
     Frame.isna x = false ->
     nth_error (Frame.column (regularize df)) j = Some y ->
     Frame.isna y = false) /\
  (Forall valid_ts (Frame.index df) ->
   consecutive_months (Frame.index df) ->
   (forall x, hd_error (Frame.column df) = Some x -> Frame.isna x = false) ->
   CanonicalSeries (regularize df)).
Proof.
  split; [apply regularize_NoDup |].
  split; [apply regularize_keys |].
  split; [| apply regularize_canonical].
  rewrite regularize_rows. intros i j x y. apply fill_rows_valid_onwards.
Qed.

(** C1 does not hold for every input: the regularizer neither sorts the
    rows nor adds a row for a month that is absent, and a missing first
    revenue stays missing. Two dated rows two months apart leave a gap;
    two rows out of order, the first without revenue, stay out of order
    and keep the missing value. *)
Lemma regularize_not_canonical :
  regularize skipped_month
    = [(date 1971 12 31, f64 100); (date 1972 2 29, f64 120)] /\
  ~ no_month_gaps (Frame.index (regularize skipped_month)) /\
  ~ CanonicalSeries (regularize skipped_month) /\
  regularize unordered_rows
    = [(date 1972 2 29, S754_nan); (date 1971 12 31, f64 100)] /\
  ~ strictly_increasing (Frame.index (regularize unordered_rows)) /\
  ~ no_missing (Frame.column (regularize unordered_rows)) /\
  ~ CanonicalSeries (regularize unordered_rows).
Proof.
  assert (Hgap : ~ no_month_gaps (Frame.index (regularize skipped_month))).
  { intros H.
    destruct (H (date 1971 12 31) (date 1972 2 29) (month_ordinal (date 1972 1 31)))
      as [c [Hin Hc]].
    - left. reflexivity.
    - right. left. reflexivity.
    - vm_compute. split; discriminate.
    - destruct Hin as [<- | [<- | []]]; vm_compute in Hc; discriminate. }
  assert (Hinc : ~ strictly_increasing (Frame.index (regularize unordered_rows))).
  { intros H. inversion H as [| a l _ Hall]; subst.
    inversion Hall as [| b l' Hlt _]; subst.
    vm_compute in Hlt. discriminate. }
  assert (Hna : ~ no_missing (Frame.column (regularize unordered_rows))).
  { intros H. inversion H as [| a l Hx _]; subst. discriminate. }
  repeat split; try reflexivity; try assumption.
  - intros [_ [_ [_ [H _]]]]. exact (Hgap H).
  - intros [_ [H _]]. exact (Hinc H).
Qed.

(** Three monthly rows, the second without revenue: well-formed dates, one
    per month in order, and a first revenue that is there. *)
Lemma regularize_invariant_witness : CanonicalSeries (regularize three_months).
Proof.
  destruct (regularize_invariant three_months) as [_ [_ [_ H]]].
  apply H.
  - repeat constructor; vm_compute; congruence.
  - intros [| [| [| i]]] a b Ha Hb; simpl in Ha, Hb;
      try discriminate; injection Ha as <-; injection Hb as <-; reflexivity.
  - intros x Hx. injection Hx as <-. reflexivity.
Defined.

(** ** Series regularizer: applied to its own output *)

Lemma MonthEnd_back_inj (a b : Timestamp) :
  month_end_key a -> month_end_key b ->
  MonthEnd (-1) a = MonthEnd (-1) b -> a = b.
Proof.
  intros Ha Hb Heq. apply month_end_key_inj; auto.
  - pose proof (f_equal month_ordinal Heq) as Ho.
    rewrite !MonthEnd_on_offset, !month_ordinal_shift in Ho
      by (apply Ha || apply Hb). lia.
  - apply (f_equal nanos) in Heq. exact Heq.
Qed.

Lemma MonthEnd_back_moves (a : Timestamp) :
  month_end_key a -> MonthEnd (-1) a <> a.
Proof.
  intros Ha Heq. apply (f_equal month_ordinal) in Heq.
  rewrite MonthEnd_on_offset, month_ordinal_shift in Heq by apply Ha. lia.
Qed.

(** The fill does not look at the keys. *)
Lemma fill_rows_map_keys (f : Timestamp -> Timestamp)
    (last : option spec_float) (df : Frame.t) :
  fill_rows last (map (fun r => (f (fst r), snd r)) df)
  = map (fun r => (f (fst r), snd r)) (fill_rows last df).
Proof.
  revert last. induction df as [| [k x] df IH]; intros last; simpl;
    [reflexivity |].
  destruct (Frame.isna x); [destruct last |]; simpl; rewrite IH; reflexivity.
Qed.

Lemma regularize_nonempty (df : Frame.t) : df <> [] -> regularize df <> [].
Proof.
  destruct df as [| [k x] df]; [congruence |]. intros _.
  rewrite regularize_rows, align_rows. simpl.
  destruct (Frame.isna x); discriminate.
Qed.

(** C2, as the code has it. Applied to its own output, the regularizer
    only moves every key one more month back: the result is the output
    with line 47 applied once more, and differs from the output as soon
    as the series has a row. Deduplication and forward fill are the
    steps that are idempotent, and both leave a regularized series as it
    is. *)
Theorem regularize_twice (df : Frame.t) :
  regularize (regularize df) = align (regularize df) /\
  (df <> [] -> regularize (regularize df) <> regularize df) /\
  drop_duplicates (regularize df) = regularize df /\
  fill_missing (regularize df) = regularize df /\
  drop_duplicates (drop_duplicates df) = drop_duplicates df /\
  fill_missing (fill_missing df) = fill_missing df.
Proof.
  assert (Hfill : forall d, fill_rows None (fill_rows None d) = fill_rows None d).
  { intros d. apply fill_rows_idem. discriminate. }
  assert (Htwice : regularize (regularize df) = align (regularize df)).
  { rewrite (regularize_rows (regularize df)).
    rewrite dedup_from_NoDup.
    - rewrite align_rows. rewrite (regularize_rows df).
      rewrite fill_rows_map_keys, Hfill. reflexivity.
    - rewrite index_align. apply NoDup_map_on; [| apply regularize_NoDup].
      pose proof (regularize_keys df) as Hk. rewrite Forall_forall in Hk.
      intros a b Ha Hb. apply MonthEnd_back_inj; auto.
    - intros k _ []. }
  split; [exact Htwice |].
  split.
  - intros Hne Heq. rewrite Htwice in Heq.
    pose proof (regularize_nonempty df Hne) as Hne'.
    pose proof (regularize_keys df) as Hk.
    destruct (regularize df) as [| [k x] rest]; [congruence |].
    rewrite align_rows in Heq. simpl in Heq, Hk.
    inversion Hk as [| ? ? Hkey _]; subst.
    injection Heq as Heq _. exact (MonthEnd_back_moves k Hkey Heq).
  - split; [| split; [| split]].
    + rewrite drop_duplicates_rows. apply dedup_from_NoDup;
        [apply regularize_NoDup | intros k _ []].
    + rewrite fill_missing_rows, regularize_rows. apply Hfill.
    + rewrite !drop_duplicates_rows. apply dedup_from_NoDup;
        [apply NoDup_index_dedup_from | intros k _ []].
    + rewrite !fill_missing_rows. apply Hfill.
Qed.

(** C2 does not hold: a single row dated 1972-01-01 is moved to
    1971-12-31 by the regularizer and to 1971-11-30 by a second pass. *)
Lemma regularize_not_idempotent :
  regularize one_row = [(date 1971 12 31, f64 100)] /\
  regularize (regularize one_row) = [(date 1971 11 30, f64 100)] /\
  regularize (regularize one_row) <> regularize one_row.
Proof. repeat split; try reflexivity. discriminate. Qed.

(** ** Deduplication keeps the first row *)

(** C7. After deduplication no key is repeated, the keys are those of
    the input, the row found at a key is the first row of the input with
    that key, and the rows kept stand in their original order (they are a
    mask selection of the input). Of two rows with the same key and the
    values 100 then 200, the row with 100 is kept, also through the whole
    regularizer. *)
Theorem drop_duplicates_keeps_first (df : Frame.t) :
  NoDup (Frame.index (drop_duplicates df)) /\
  (forall k, In k (Frame.index (drop_duplicates df)) <-> In k (Frame.index df)) /\
  (forall k, first_row k (drop_duplicates df) = first_row k df) /\
  (exists mask, List.length mask = List.length df /\
                drop_duplicates df = Frame.select df mask) /\
  (forall k x y, drop_duplicates [(k, x); (k, y)] = [(k, x)]) /\
  (forall k, first_row k (drop_duplicates (align df)) = first_row k (align df)) /\
  drop_duplicates [(date 2020 1 31, f64 100); (date 2020 1 31, f64 200)]
    = [(date 2020 1 31, f64 100)] /\
  regularize [(date 2020 2 15, f64 100); (date 2020 2 15, f64 200)]
    = [(date 2020 1 31, f64 100)] /\
  regularize [(date 2020 1 31, f64 100); (date 2020 1 31, f64 200)]
    = [(date 2019 12 31, f64 100)].
Proof.
  assert (Hfirst : forall d k, first_row k (drop_duplicates d) = first_row k d).
  { intros d k. rewrite drop_duplicates_rows.
    apply first_row_dedup_from. intros []. }
  rewrite drop_duplicates_rows.
  split; [apply NoDup_index_dedup_from |].
  split; [intros k; rewrite In_index_dedup_from; simpl; tauto |].
  split; [intros k; rewrite <- drop_duplicates_rows; apply Hfirst |].
  split; [apply dedup_from_select |].
  split.
  - intros k x y. rewrite drop_duplicates_rows. simpl.
    rewrite ts_eqb_refl. reflexivity.
  - split; [intros k; apply Hfirst |]. repeat split; reflexivity.
Qed.

(** ** Alignment comes before deduplication *)

Lemma first_row_app_skip (k : Timestamp) (pre rest : Frame.t) :
  ~ In k (Frame.index pre) -> first_row k (pre ++ rest) = first_row k rest.
Proof.
  unfold first_row. induction pre as [| r pre IH]; intros Hk; simpl;
    [reflexivity |].
  simpl in Hk. destruct (ts_eq_dec (fst r) k) as [Heq | Hne]; [tauto |].
  destruct (ts_eqb (fst r) k) eqn:Hb; [apply ts_eqb_eq in Hb; tauto |].
  apply IH. tauto.
Qed.

(** A key of an index without repetition is the key of exactly one row. *)
Lemma NoDup_one_row (k : Timestamp) (df : Frame.t) :
  NoDup (Frame.index df) -> In k (Frame.index df) ->
  List.length (filter (fun r => ts_eqb (fst r) k) df) = 1%nat.
Proof.
  induction df as [| r df IH]; intros Hnd Hin; simpl in *; [contradiction |].
  inversion Hnd as [| ? ? Hr Hnd']; subst.
  destruct (ts_eq_dec (fst r) k) as [Heq | Hne].
  - subst k. rewrite ts_eqb_refl. simpl. f_equal.
    assert (Hnone : forall d, ~ In (fst r) (Frame.index d) ->
              filter (fun r0 => ts_eqb (fst r0) (fst r)) d = []).
    { induction d as [| r0 d IHd]; intros Hd; simpl in *; [reflexivity |].
      destruct (ts_eqb (fst r0) (fst r)) eqn:Hb.
      - apply ts_eqb_eq in Hb. tauto.
      - apply IHd. tauto. }
    rewrite Hnone; auto.
  - destruct (ts_eqb (fst r) k) eqn:Hb; [apply ts_eqb_eq in Hb; tauto |].
    apply IH; tauto.
Qed.

(** C10. Two rows with distinct dates [k1] and [k2] that line 47 moves to
    the same month end are two rows with one key after the alignment and
    exactly one row after the regularizer. When the row of [k1] is the
    first with that adjusted key, deduplication keeps its revenue [v1];
    the regularized series holds [v1] at that key when [v1] is a valid
    value. *)
Theorem aligned_collision_keeps_first
    (pre mid post : Frame.t) (k1 k2 : Timestamp) (v1 v2 : spec_float) :
  k1 <> k2 ->
  MonthEnd (-1) k1 = MonthEnd (-1) k2 ->
  ~ In (MonthEnd (-1) k1) (Frame.index (align pre)) ->
  (2 <= List.length
    (filter (fun r => ts_eqb (fst r) (MonthEnd (-1) k1))
       (align (pre ++ (k1, v1) :: mid ++ (k2, v2) :: post))))%nat /\
  List.length
    (filter (fun r => ts_eqb (fst r) (MonthEnd (-1) k1))
       (regularize (pre ++ (k1, v1) :: mid ++ (k2, v2) :: post))) = 1%nat /\
  first_row (MonthEnd (-1) k1)
    (drop_duplicates (align (pre ++ (k1, v1) :: mid ++ (k2, v2) :: post)))
    = Some (MonthEnd (-1) k1, v1) /\
  (Frame.isna v1 = false ->
   first_row (MonthEnd (-1) k1)
     (regularize (pre ++ (k1, v1) :: mid ++ (k2, v2) :: post))
     = Some (MonthEnd (-1) k1, v1)).
Proof.
  intros _ Hsame Hpre.
  assert (Htwo : (2 <= List.length
    (filter (fun r => ts_eqb (fst r) (MonthEnd (-1) k1))
       (align (pre ++ (k1, v1) :: mid ++ (k2, v2) :: post))))%nat).
  { rewrite align_rows, map_app, filter_app, length_app. simpl.
    rewrite ts_eqb_refl. simpl.
    rewrite map_app, filter_app, length_app. simpl.
    rewrite <- Hsame, ts_eqb_refl. simpl. lia. }
  split; [exact Htwo | clear Htwo Hsame].
  set (df := pre ++ (k1, v1) :: mid ++ (k2, v2) :: post).
  set (K := MonthEnd (-1) k1) in *.
  assert (Hfirst : first_row K (align df) = Some (K, v1)).
  { unfold df. rewrite align_rows, map_app, <- align_rows.
    rewrite first_row_app_skip by exact Hpre.
    unfold first_row. simpl. fold K. rewrite ts_eqb_refl. reflexivity. }
  assert (Hdedup : first_row K (dedup_from [] (align df)) = Some (K, v1)).
  { rewrite first_row_dedup_from by (intros []). exact Hfirst. }
  split; [| split].
  - apply NoDup_one_row; [apply regularize_NoDup |].
    rewrite index_regularize.
    unfold first_row in Hdedup. apply find_some in Hdedup.
    destruct Hdedup as [Hin _].
    apply (in_map fst) in Hin. exact Hin.
  - rewrite drop_duplicates_rows. exact Hdedup.
  - intros Hv. rewrite regularize_rows.
    apply first_row_fill_rows; assumption.
Qed.

(** 1972-01-05 and 1972-01-20 both move to 1971-12-31; the revenue of the
    first one stays. *)
Lemma aligned_collision_keeps_first_witness :
  first_row (date 1971 12 31)
    (regularize [(date 1972 1 5, f64 100); (date 1972 2 1, f64 110);
                 (date 1972 1 20, f64 200)])
  = Some (date 1971 12 31, f64 100).
Proof.
  refine (proj2 (proj2 (proj2 (aligned_collision_keeps_first
            [] [(date 1972 2 1, f64 110)] []
            (date 1972 1 5) (date 1972 1 20) (f64 100) (f64 200) _ _ _))) _).
  - discriminate.
  - reflexivity.
  - simpl. tauto.
  - reflexivity.
Defined.

(** ** Forward fill *)

Lemma length_ffill_from (last : option spec_float) (col : list spec_float) :
  List.length (Frame.ffill_from last col) = List.length col.
Proof.
  revert last. induction col as [| x col IH]; intros last; simpl; [reflexivity |].
  destruct (Frame.isna x); [destruct last |]; simpl; rewrite IH; reflexivity.
Qed.

(** A valid value is left as it is. *)
Lemma ffill_from_valid (last : option spec_float) (col : list spec_float)
    (i : nat) (x : spec_float) :
  nth_error col i = Some x -> Frame.isna x = false ->
  nth_error (Frame.ffill_from last col) i = Some x.
Proof.
  revert last i. induction col as [| z col IH]; intros last i Hx Hna.
  - destruct i; discriminate.
  - destruct i as [| i]; simpl in *.
    + injection Hx as ->. rewrite Hna. reflexivity.
    + destruct (Frame.isna z); [destruct last |]; simpl; apply IH; assumption.
Qed.

(** A missing value with only missing values before it takes the value
    carried into the column, when there is one. *)
Lemma ffill_from_leading (last : option spec_float) (col : list spec_float)
    (i : nat) (x : spec_float) :
  (forall k y, (k < i)%nat -> nth_error col k = Some y -> Frame.isna y = true) ->
  nth_error col i = Some x -> Frame.isna x = true ->
  nth_error (Frame.ffill_from last col) i
  = Some (match last with Some v => v | None => x end).
Proof.
  revert last i. induction col as [| z col IH]; intros last i Hbefore Hx Hna.
  - destruct i; discriminate.
  - destruct i as [| i]; simpl in *.
    + injection Hx as ->. rewrite Hna. destruct last; reflexivity.
    + rewrite (Hbefore O z) by (lia || reflexivity).
      assert (Hrest : forall k y, (k < i)%nat ->
                nth_error col k = Some y -> Frame.isna y = true).
      { intros k y Hk Hy. apply (Hbefore (S k) y); [lia | exact Hy]. }
      destruct last; simpl; apply IH; assumption.
Qed.

(** A missing value takes the most recent valid value before it. *)
Lemma ffill_from_carry (last : option spec_float) (col : list spec_float)
    (i j : nat) (v x : spec_float) :
  (j < i)%nat ->
  nth_error col j = Some v -> Frame.isna v = false ->
  (forall k y, (j < k < i)%nat -> nth_error col k = Some y -> Frame.isna y = true) ->
  nth_error col i = Some x -> Frame.isna x = true ->
  nth_error (Frame.ffill_from last col) i = Some v.
Proof.
  revert last i j. induction col as [| z col IH];
    intros last i j Hji Hv Hvna Hbetween Hx Hna.
  - destruct j; discriminate.
  - destruct i as [| i]; [lia |].
    destruct j as [| j]; simpl in Hv, Hx.
    + injection Hv as ->. simpl. rewrite Hvna. simpl.
      apply (ffill_from_leading (Some v) col i x); try assumption.
      intros k y Hk Hy. apply (Hbetween (S k) y); [lia | exact Hy].
    + assert (Hrest : forall k y, (j < k < i)%nat ->
                nth_error col k = Some y -> Frame.isna y = true).
      { intros k y Hk Hy. apply (Hbetween (S k) y); [lia | exact Hy]. }
      simpl. destruct (Frame.isna z); [destruct last |]; simpl;
        (apply (IH _ i j); [lia | assumption ..]).
Qed.

(** C6. The gap fill keeps the keys and the number of rows, leaves
    every valid value as it is, replaces a missing value by the most
    recent valid value before it, and leaves missing a value with no
    valid value before it (the first value in particular).
    [100, missing, 150] becomes [100, 100, 150]. *)
Theorem forward_fill_spec (col : list spec_float) :
  List.length (Frame.ffill col) = List.length col /\
  (forall i x, nth_error col i = Some x -> Frame.isna x = false ->
     nth_error (Frame.ffill col) i = Some x) /\
  (forall i j v x, (j < i)%nat ->
     nth_error col j = Some v -> Frame.isna v = false ->
     (forall k y, (j < k < i)%nat -> nth_error col k = Some y ->
        Frame.isna y = true) ->
     nth_error col i = Some x -> Frame.isna x = true ->
     nth_error (Frame.ffill col) i = Some v) /\
  (forall i x,
     (forall k y, (k < i)%nat -> nth_error col k = Some y -> Frame.isna y = true) ->
     nth_error col i = Some x -> Frame.isna x = true ->
     nth_error (Frame.ffill col) i = Some x) /\
  (forall df, Frame.column df = col ->
     Frame.index (fill_missing df) = Frame.index df /\
     Frame.column (fill_missing df) = Frame.ffill col) /\
  (forall rest, hd_error (Frame.ffill (S754_nan :: rest)) = Some S754_nan) /\
  Frame.ffill [f64 100; S754_nan; f64 150] = [f64 100; f64 100; f64 150] /\
  fill_missing [(date 2020 1 31, f64 100); (date 2020 2 29, S754_nan);
                (date 2020 3 31, f64 150)]
    = [(date 2020 1 31, f64 100); (date 2020 2 29, f64 100);
       (date 2020 3 31, f64 150)].
Proof.
  split; [apply length_ffill_from |].
  split; [intros i x; apply ffill_from_valid |].
  split; [intros i j v x; apply ffill_from_carry |].
  split; [intros i x Hb Hx Hna;
          apply (ffill_from_leading None col i x Hb Hx Hna) |].
  split; [| split; [reflexivity | split; reflexivity]].
  intros df <-. unfold fill_missing, Frame.set_column.
  assert (Hlen : List.length (Frame.index df)
                 = List.length (Frame.ffill (Frame.column df))).
  { unfold Frame.ffill. rewrite length_ffill_from.
    unfold Frame.index, Frame.column. rewrite !length_map. reflexivity. }
  split; [apply index_combine | apply column_combine]; exact Hlen.
Qed.

(** ** Forecast assembly *)

Lemma length_generate_range (cur : Timestamp) (n : nat) :
  List.length (generate_range cur n) = n.
Proof.
  revert cur. induction n as [| n IH]; intros cur; simpl; [reflexivity |].
  rewrite IH. reflexivity.
Qed.

Lemma generate_range_monthly (cur : Timestamp) (n : nat) :
  month_end_key cur ->
  forall i a, nth_error (generate_range cur n) i = Some a ->
    month_end_key a /\ month_ordinal a = month_ordinal cur + Z.of_nat i /\
    nanos a = nanos cur.
Proof.
  revert cur. induction n as [| n IH]; intros cur Hcur i a Ha.
  - destruct i; discriminate.
  - destruct i as [| i]; simpl in Ha.
    + injection Ha as <-. repeat split; try apply Hcur. lia.
    + destruct (IH (MonthEnd 1 cur) (MonthEnd_key 1 cur) i a Ha)
        as [Hk [Ho Hn]].
      rewrite MonthEnd_on_offset, month_ordinal_shift in Ho by apply Hcur.
      repeat split; try apply Hk; [lia | exact Hn].
Qed.

Lemma forecast_index_from_key (start : Timestamp) (n : nat) :
  month_end_key start ->
  forecast_index start n = generate_range (MonthEnd 1 start) n.
Proof.
  intros [_ Hon]. unfold forecast_index, date_range, rollforward.
  rewrite Hon, Nat.add_1_r. reflexivity.
Qed.

Lemma last_In {A : Type} (l : list A) (d : A) : In (last l d) (d :: l).
Proof.
  induction l as [| x l IH]; [left; reflexivity |].
  destruct l as [| y l']; [right; left; reflexivity |].
  change (last (x :: y :: l') d) with (last (y :: l') d).
  destruct IH as [H | H]; [left; exact H | right; right; exact H].
Qed.

Lemma last_index_In (df : Frame.t) (k : Timestamp) :
  last_index df = Some k -> In k (Frame.index df).
Proof.
  unfold last_index. destruct (Frame.index df) as [| k0 rest]; [discriminate |].
  intros H. injection H as <-. apply last_In.
Qed.

Lemma ts_lt_iff (a b : Timestamp) :
  ts_lt a b <->
  year a < year b \/
  (year a = year b /\
   (month a < month b \/
    (month a = month b /\
     (day a < day b \/ (day a = day b /\ nanos a < nanos b))))).
Proof.
  unfold ts_lt, ts_ltb, ts_compare.
  destruct (Z.compare_spec (year a) (year b));
    destruct (Z.compare_spec (month a) (month b));
    destruct (Z.compare_spec (day a) (day b));
    destruct (Z.compare_spec (nanos a) (nanos b));
    split; intros Hx; try reflexivity; try discriminate; try lia;
    exfalso; lia.
Qed.

Lemma ts_lt_trans (a b c : Timestamp) : ts_lt a b -> ts_lt b c -> ts_lt a c.
Proof. rewrite !ts_lt_iff. lia. Qed.

Lemma last_cons {A : Type} (x : A) (l : list A) (d : A) :
  last (x :: l) d = last l x.
Proof.
  revert x d. induction l as [| y l IH]; intros x d; [reflexivity |].
  change (last (x :: y :: l) d) with (last (y :: l) d).
  rewrite (IH y d), (IH y x). reflexivity.
Qed.

(** In an increasing index the last key is the latest. *)
Lemma increasing_last (l : list Timestamp) (d : Timestamp) :
  StronglySorted ts_lt (d :: l) ->
  forall h, In h (d :: l) -> h = last l d \/ ts_lt h (last l d).
Proof.
  revert d. induction l as [| x l IH]; intros d Hs h Hin.
  - destruct Hin as [<- | []]. left. reflexivity.
  - apply StronglySorted_inv in Hs. destruct Hs as [Hrest Hd].
    rewrite last_cons. destruct Hin as [<- | Hin].
    + right. rewrite Forall_forall in Hd. apply Hd. apply last_In.
    + apply IH; assumption.
Qed.

Lemma increasing_NoDup (l : list Timestamp) : StronglySorted ts_lt l -> NoDup l.
Proof.
  induction 1 as [| a l Hs IH Ha]; constructor; [| exact IH].
  intros Hin. rewrite Forall_forall in Ha.
  exact (ts_lt_irrefl a (Ha a Hin)).
Qed.

Lemma label_eqb_eq (a b : label) : label_eqb a b = true <-> a = b.
Proof.
  destruct a as [t | n], b as [u | k]; simpl.
  - rewrite ts_eqb_eq. split; congruence.
  - split; discriminate.
  - split; discriminate.
  - rewrite Z.eqb_eq. split; congruence.
Qed.

Lemma label_eqb_refl (a : label) : label_eqb a a = true.
Proof. apply label_eqb_eq. reflexivity. Qed.

Lemma existsb_label_In (l : label) (labels : list label) :
  existsb (label_eqb l) labels = true <-> In l labels.
Proof.
  rewrite existsb_exists. split.
  - intros [x [Hin Heq]]. apply label_eqb_eq in Heq. subst. exact Hin.
  - intros Hin. exists l. split; [exact Hin | apply label_eqb_refl].
Qed.

Lemma has_duplicates_NoDup (labels : list label) :
  has_duplicates labels = false <-> NoDup labels.
Proof.
  induction labels as [| l labels IH]; simpl.
  - split; [constructor | reflexivity].
  - rewrite orb_false_iff, IH. split.
    + intros [Hl Hnd]. constructor; [| exact Hnd].
      intros Hin. apply existsb_label_In in Hin. congruence.
    + intros H. inversion H as [| ? ? Hl Hnd]; subst. split; [| exact Hnd].
      destruct (existsb (label_eqb l) labels) eqn:He; [| reflexivity].
      apply existsb_label_In in He. contradiction.
Qed.

(** The last key of a frame is the key of its last row. *)
Lemma last_index_spec (df : Frame.t) (k : Timestamp) :
  last_index df = Some k <-> exists earlier, Frame.index df = earlier ++ [k].
Proof.
  unfold last_index. split.
  - destruct (Frame.index df) as [| k0 rest]; [discriminate |].
    intros H. injection H as <-.
    exists (removelast (k0 :: rest)).
    rewrite <- last_cons with (d := k0).
    apply app_removelast_last. discriminate.
  - intros [earlier ->]. destruct earlier as [| k0 earlier].
    + reflexivity.
    + cbn [app]. f_equal. rewrite <- last_cons with (d := k0).
      change (k0 :: earlier ++ [k]) with ((k0 :: earlier) ++ [k]).
      apply last_last.
Qed.

(** A series without repeated labels holds, at the label of a row, the
    value of that row. *)
Lemma value_at_In (rows : list (label * spec_float)) (l : label) (v : spec_float) :
  has_duplicates (map fst rows) = false -> In (l, v) rows ->
  value_at rows l = v.
Proof.
  unfold value_at. induction rows as [| [l0 v0] rows IH]; intros Hd Hin;
    [destruct Hin |].
  simpl in Hd. apply orb_false_iff in Hd. destruct Hd as [Hhead Hrest].
  simpl. destruct (label_eqb l l0) eqn:Heq.
  - apply label_eqb_eq in Heq. subst l0. destruct Hin as [Hin | Hin].
    + injection Hin as ->. reflexivity.
    + exfalso. assert (Hl : In l (map fst rows)).
      { change l with (fst (l, v)). apply in_map. exact Hin. }
      apply existsb_label_In in Hl. congruence.
  - destruct Hin as [Hin | Hin].
    + injection Hin as -> ->. rewrite label_eqb_refl in Heq. discriminate.
    + apply IH; assumption.
Qed.

Lemma value_at_absent (rows : list (label * spec_float)) (l : label) :
  ~ In l (map fst rows) -> value_at rows l = S754_nan.
Proof.
  unfold value_at. induction rows as [| [l0 v0] rows IH]; intros Hn;
    [reflexivity |].
  simpl. destruct (label_eqb l l0) eqn:Heq.
  - apply label_eqb_eq in Heq. subst l0. exfalso. apply Hn. left. reflexivity.
  - apply IH. intros Hin. apply Hn. right. exact Hin.
Qed.

Lemma index_reindex (rows : list (label * spec_float)) (idx : list Timestamp) :
  Frame.index (reindex rows idx) = idx.
Proof.
  unfold Frame.index, reindex. rewrite map_map. simpl. apply map_id.
Qed.

(** A series labelled with the dates of the index, in the same order, is
    paired with them by position. *)
Lemma reindex_same_labels (idx : list Timestamp) :
  NoDup idx -> forall rows,
  map fst rows = map LDate idx -> reindex rows idx = combine idx (map snd rows).
Proof.
  induction 1 as [| a idx Ha Hnd IH]; intros rows Hrows.
  - destruct rows; [reflexivity | discriminate].
  - destruct rows as [| [l v] rows]; [discriminate |].
    simpl in Hrows. injection Hrows as -> Hrows.
    unfold reindex. simpl. f_equal.
    + unfold value_at. simpl. rewrite ts_eqb_refl. reflexivity.
    + rewrite <- (IH rows Hrows). unfold reindex. apply map_ext_in.
      intros t Ht. f_equal. unfold value_at. simpl.
      destruct (ts_eqb t a) eqn:Heq; [| reflexivity].
      apply ts_eqb_eq in Heq. subst t. contradiction.
Qed.

Section Forecast.

Context {E : Externals}.

(** The run of the assembler on a series with a last date. *)
Lemma forecaster_run (m : Model) (df : Frame.t) (last : Timestamp)
    (ss : SessionState) :
  last_index df = Some last ->
  forecaster m df ss
  = (match make_series (predict m n_periods) (forecast_index last n_periods) with
     | inr forecast_series => inr forecast_series
     | inl e => inl e
     end, ss, [CallPredict n_periods]).
Proof.
  intros Hlast. unfold forecaster, bind, emit, or_raise, ret, raise.
  rewrite Hlast. simpl.
  destruct (make_series _ _); reflexivity.
Qed.

(** C3, as the code has it. On an empty series the assembler stops with
    [IndexError]. From a regularized series with a last row, the forecast
    index is made of 60 month ends in strictly increasing order, all
    after the date of the last row, the [i]-th one [i + 1] calendar
    months after it (the first one is the next month end); they are after
    every historical date when the index of the series is increasing.
    When [predict] returns a bare array, 60 values are paired with the
    dates by position and any other number of values is the error
    [LengthMismatchError]. When [predict] returns a labelled series, the
    values are aligned on the dates by label, whatever their number: a
    forecast date gets the value labelled with that date, NaN when there
    is none, so that a series labelled with the forecast dates themselves
    is paired by position; a series that repeats a label is an error. *)
Theorem forecast_assembly (m : Model) (loaded : Frame.t) (ss : SessionState) :
  (last_index (regularize loaded) = None ->
   forecaster m (regularize loaded) ss
     = (inl IndexError, ss, [CallPredict n_periods])) /\
  (forall last, last_index (regularize loaded) = Some last ->
   exists idx,
    forecast_index last n_periods = idx /\
    (exists earlier, Frame.index (regularize loaded) = earlier ++ [last]) /\
    List.length idx = 60%nat /\
    strictly_increasing idx /\
    Forall month_end_key idx /\
    Forall (ts_lt last) idx /\
    (forall i a, nth_error idx i = Some a ->
       month_ordinal a = month_ordinal last + 1 + Z.of_nat i /\
       nanos a = nanos last) /\
    hd_error idx = Some (MonthEnd 1 last) /\
    (strictly_increasing (Frame.index (regularize loaded)) ->
     forall h a, In h (Frame.index (regularize loaded)) -> In a idx ->
       ts_lt h a) /\
    (forall values, predict m n_periods = PArray values ->
       (List.length values = 60%nat ->
        forecaster m (regularize loaded) ss
          = (inr (combine idx values), ss, [CallPredict n_periods]) /\
        List.length (combine idx values) = 60%nat /\
        Frame.index (combine idx values) = idx /\
        Frame.column (combine idx values) = values) /\
       (List.length values <> 60%nat ->
        forecaster m (regularize loaded) ss
          = (inl LengthMismatchError, ss, [CallPredict n_periods]))) /\
    (forall rows, predict m n_periods = PSeries rows ->
       (NoDup (map fst rows) ->
        forecaster m (regularize loaded) ss
          = (inr (reindex rows idx), ss, [CallPredict n_periods]) /\
        List.length (reindex rows idx) = 60%nat /\
        Frame.index (reindex rows idx) = idx /\
        (forall a v, In a idx -> In (LDate a, v) rows ->
           In (a, v) (reindex rows idx)) /\
        (forall a, In a idx -> ~ In (LDate a) (map fst rows) ->
           In (a, S754_nan) (reindex rows idx)) /\
        (map fst rows = map LDate idx ->
           reindex rows idx = combine idx (map snd rows))) /\
       (~ NoDup (map fst rows) ->
        forecaster m (regularize loaded) ss
          = (inl ReindexError, ss, [CallPredict n_periods])))).
Proof.
  split.
  { intros Hnone. unfold forecaster, bind, emit, or_raise, ret, raise.
    rewrite Hnone. reflexivity. }
  intros last Hlast.
  assert (Hkey : month_end_key last).
  { pose proof (regularize_keys loaded) as Hk. rewrite Forall_forall in Hk.
    apply Hk. apply last_index_In. exact Hlast. }
  exists (forecast_index last n_periods).
  pose proof (forecast_index_from_key last n_periods Hkey) as Hidx.
  assert (Hn : List.length (forecast_index last n_periods) = 60%nat).
  { rewrite Hidx. apply length_generate_range. }
  assert (Hmonthly : monthly_from (month_ordinal last + 1)
                                  (forecast_index last n_periods)).
  { intros i a Ha. rewrite Hidx in Ha.
    destruct (generate_range_monthly _ _ (MonthEnd_key 1 last) i a Ha)
      as [Hk [Ho _]].
    rewrite MonthEnd_on_offset, month_ordinal_shift in Ho by apply Hkey.
    split; [exact Hk | lia]. }
  assert (Hinc : strictly_increasing (forecast_index last n_periods)).
  { eapply monthly_from_increasing. exact Hmonthly. }
  assert (Hafter : Forall (ts_lt last) (forecast_index last n_periods)).
  { apply Forall_forall. intros a Ha.
    destruct (In_nth_error _ _ Ha) as [i Hi].
    destruct (Hmonthly i a Hi) as [[Hm _] Ho].
    apply month_ordinal_lt; [apply Hkey | exact Hm | lia]. }
  split; [reflexivity |].
  split; [apply last_index_spec; exact Hlast |].
  split; [exact Hn |].
  split; [exact Hinc |].
  split; [eapply monthly_from_keys; exact Hmonthly |].
  split; [exact Hafter |].
  split.
  { intros i a Ha. split; [apply (Hmonthly i a Ha) |].
    rewrite Hidx in Ha.
    destruct (generate_range_monthly _ _ (MonthEnd_key 1 last) i a Ha)
      as [_ [_ Hnanos]]. exact Hnanos. }
  split; [rewrite Hidx; reflexivity |].
  split.
  { intros Hsorted h a Hh Ha.
    rewrite Forall_forall in Hafter. specialize (Hafter a Ha).
    unfold last_index in Hlast. unfold strictly_increasing in Hsorted.
    destruct (Frame.index (regularize loaded)) as [| k rest]; [destruct Hh |].
    injection Hlast as <-.
    destruct (increasing_last rest k Hsorted h Hh) as [-> | Hlt];
      [exact Hafter | exact (ts_lt_trans _ _ _ Hlt Hafter)]. }
  split.
  { intros values Hp. split.
    - intros Hlen. split.
      + rewrite (forecaster_run m _ last ss Hlast), Hp. unfold make_series.
        rewrite Hlen, Hn. reflexivity.
      + split; [rewrite length_combine, Hn, Hlen; reflexivity |].
        split; [apply index_combine | apply column_combine];
          rewrite Hn, Hlen; reflexivity.
    - intros Hlen.
      rewrite (forecaster_run m _ last ss Hlast), Hp. unfold make_series.
      rewrite Hn. destruct (Nat.eqb_spec (List.length values) 60);
        [contradiction | reflexivity]. }
  intros rows Hp. split.
  - intros Hd. apply has_duplicates_NoDup in Hd. split.
    { rewrite (forecaster_run m _ last ss Hlast), Hp. unfold make_series.
      rewrite Hd. reflexivity. }
    split; [unfold reindex; rewrite length_map; exact Hn |].
    split; [apply index_reindex |].
    split.
    { intros a v Ha Hv. unfold reindex.
      rewrite <- (value_at_In rows (LDate a) v Hd Hv).
      apply (in_map (fun t => (t, value_at rows (LDate t)))). exact Ha. }
    split.
    { intros a Ha Hv. unfold reindex.
      rewrite <- (value_at_absent rows (LDate a) Hv).
      apply (in_map (fun t => (t, value_at rows (LDate t)))). exact Ha. }
    apply reindex_same_labels. apply increasing_NoDup. exact Hinc.
  - intros Hd.
    assert (Hdup : has_duplicates (map fst rows) = true).
    { destruct (has_duplicates (map fst rows)) eqn:He; [reflexivity |].
      apply has_duplicates_NoDup in He. contradiction. }
    rewrite (forecaster_run m _ last ss Hlast), Hp. unfold make_series.
    rewrite Hdup. reflexivity.
Qed.

End Forecast.

(** The series of three months ends on 1972-02-29; with a model that
    returns 60 bare values its forecast starts on 1972-03-31. *)
Lemma forecast_assembly_witness :
  exists idx,
    forecast_index (date 1972 2 29) n_periods = idx /\
    List.length idx = 60%nat /\ strictly_increasing idx /\
    hd_error idx = Some (date 1972 3 31) /\
    @forecaster flat_externals (f64 100) (regularize three_months) empty_session
      = (inr (combine idx (repeat (f64 100) 60)), empty_session,
         [CallPredict n_periods]).
Proof.
  destruct (proj2 (@forecast_assembly flat_externals (f64 100) three_months
                     empty_session) (date 1972 2 29) eq_refl)
    as [idx [Hidx [_ [Hlen [Hinc [_ [_ [_ [Hhd [_ [Harray _]]]]]]]]]]].
  exists idx. repeat split; try assumption.
  apply (Harray (repeat (f64 100) 60) eq_refl). reflexivity.
Defined.

(** C3 does not hold in two ways. The last row of an unordered file is
    not its latest date: on [unordered_rows] the series ends on
    1971-12-31 and holds 1972-02-29, which is a forecast date too. And a
    prediction labelled by quarters, as a model fitted on quarterly data
    returns it, is not paired by position: the series ends on 1971-09-30,
    and of the 60 predicted values 20 reach the forecast, the first of
    them on the third date, while 40 dates get NaN; 59 labelled values
    raise no error. *)
Lemma forecast_dates_and_pairing :
  (last_index (regularize unordered_rows) = Some (date 1971 12 31) /\
   In (date 1972 2 29) (Frame.index (regularize unordered_rows)) /\
   In (date 1972 2 29) (forecast_index (date 1971 12 31) n_periods) /\
   ~ Forall (fun a => Forall (fun h => ts_lt h a)
                        (Frame.index (regularize unordered_rows)))
            (forecast_index (date 1971 12 31) n_periods)) /\
  (last_index (regularize quarterly_rows) = Some (date 1971 9 30) /\
   @auto_arima labelled_externals (regularize quarterly_rows)
     = Some (quarterly_forecast (date 1971 9 30) 60) /\
   @predict labelled_externals (quarterly_forecast (date 1971 9 30) 60) n_periods
     = PSeries (quarterly_forecast (date 1971 9 30) 60) /\
   List.length (quarterly_forecast (date 1971 9 30) 60) = 60%nat /\
   Forall (fun r => Frame.isna (snd r) = false)
          (quarterly_forecast (date 1971 9 30) 60) /\
   exists fs,
     @forecaster labelled_externals (quarterly_forecast (date 1971 9 30) 60)
        (regularize quarterly_rows) empty_session
       = (inr fs, empty_session, [CallPredict n_periods]) /\
     List.length fs = 60%nat /\
     List.length (filter Frame.isna (Frame.column fs)) = 40%nat /\
     firstn 3 fs = [(date 1971 10 31, S754_nan); (date 1971 11 30, S754_nan);
                    (date 1971 12 31, f64 100)] /\
     Frame.column fs <> map snd (quarterly_forecast (date 1971 9 30) 60)) /\
  (List.length (quarterly_forecast (date 1971 9 30) 59) = 59%nat /\
   fst (fst (@forecaster labelled_externals
               (quarterly_forecast (date 1971 9 30) 59)
               (regularize quarterly_rows) empty_session))
     <> inl LengthMismatchError).
Proof.
  split; [| split].
  - split; [reflexivity |]. split; [left; reflexivity |].
    split; [right; left; reflexivity |].
    intros H. apply Forall_inv_tail in H. apply Forall_inv in H.
    apply Forall_inv in H. revert H. apply ts_lt_irrefl.
  - split; [reflexivity |]. split; [reflexivity |].
    split; [reflexivity |]. split; [reflexivity |].
    split.
    { apply Forall_forall. intros r Hr. unfold quarterly_forecast in Hr.
      apply in_map_iff in Hr. destruct Hr as [i [<- _]]. reflexivity. }
    exists (reindex (quarterly_forecast (date 1971 9 30) 60)
                    (forecast_index (date 1971 9 30) n_periods)).
    split; [reflexivity |].
    split; [reflexivity |]. split; [vm_compute; reflexivity |].
    split; [vm_compute; reflexivity |].
    vm_compute. discriminate.
  - split; [reflexivity |]. vm_compute. discriminate.
Qed.

(** ** Column normalizer: the month column is renamed *)

Lemma columns_rename (data : RawTable) (col new : string) :
  columns (rename data col new)
  = map (fun c => if String.eqb c col then new else c) (columns data).
Proof.
  unfold columns, rename. rewrite !map_map. apply map_ext.
  intros [c cells]. simpl. destruct (String.eqb c col); reflexivity.
Qed.

Lemma cells_rename (data : RawTable) (col new : string) :
  map snd (rename data col new) = map snd data.
Proof.
  unfold rename. rewrite map_map. apply map_ext.
  intros [c cells]. simpl. destruct (String.eqb c col); reflexivity.
Qed.

Lemma rename_absent (data : RawTable) (col new : string) :
  ~ In col (columns data) -> rename data col new = data.
Proof.
  induction data as [| [c cells] data IH]; intros Hin; simpl in *;
    [reflexivity |].
  destruct (String.eqb_spec c col) as [-> | Hne]; [tauto |].
  f_equal. apply IH. tauto.
Qed.

Lemma rename_same (data : RawTable) (col : string) :
  rename data col col = data.
Proof.
  induction data as [| [c cells] data IH]; simpl; [reflexivity |].
  rewrite IH. destruct (String.eqb_spec c col) as [-> | Hne]; reflexivity.
Qed.

(** With distinct column names, exactly one column is renamed, in place. *)
Lemma rename_NoDup (data : RawTable) (col new : string) :
  NoDup (columns data) -> In col (columns data) ->
  exists pre cells post,
    data = pre ++ (col, cells) :: post /\
    rename data col new = pre ++ (new, cells) :: post.
Proof.
  induction data as [| [c cells] data IH]; intros Hnd Hin; simpl in *;
    [contradiction |].
  inversion Hnd as [| ? ? Hc Hnd']; subst.
  destruct (String.eqb_spec c col) as [-> | Hne].
  - exists [], cells, data. simpl. rewrite rename_absent by exact Hc. auto.
  - destruct Hin as [Heq | Hin]; [contradiction |].
    destruct (IH Hnd' Hin) as [pre [cells' [post [Hd Hr]]]].
    exists ((c, cells) :: pre), cells', post. simpl.
    fold (rename data col new). rewrite Hr, <- Hd. auto.
Qed.

Lemma in_columns_In (name : string) (data : RawTable) :
  in_columns name data = true <-> In name (columns data).
Proof.
  unfold in_columns. rewrite existsb_exists. split.
  - intros [c [Hin Heq]]. apply String.eqb_eq in Heq. subst. exact Hin.
  - intros Hin. exists name. split; [exact Hin | apply String.eqb_refl].
Qed.

(** C4. When some column name is ["month"] once trimmed and lowercased,
    the normalizer returns the table with one such name [col] replaced by
    ["Month"]: every column keeps its position and its cells, and a
    column with another name keeps its name. With distinct column names
    exactly one column is renamed. *)
Theorem normalize_columns_renames (data : RawTable) :
  existsb month_like (columns data) = true ->
  exists col,
    In col (columns data) /\ month_like col = true /\
    normalize_columns data = Some (rename data col "Month") /\
    In "Month"%string (columns (rename data col "Month")) /\
    map snd (rename data col "Month") = map snd data /\
    List.length (columns (rename data col "Month")) = List.length (columns data) /\
    (forall i name, nth_error (columns data) i = Some name ->
       nth_error (columns (rename data col "Month")) i
       = Some (if String.eqb name col then "Month"%string else name)) /\
    (NoDup (columns data) ->
     exists pre cells post,
       data = pre ++ (col, cells) :: post /\
       rename data col "Month" = pre ++ ("Month"%string, cells) :: post).
Proof.
  intros Hex.
  assert (Hcol : exists col, In col (columns data) /\ month_like col = true /\
                   normalize_columns data = Some (rename data col "Month")).
  { unfold normalize_columns.
    destruct (in_columns "Month" data) eqn:Hin.
    - exists "Month"%string. rewrite rename_same.
      apply in_columns_In in Hin. auto.
    - destruct (find month_like (columns data)) as [col |] eqn:Hfind.
      + apply find_some in Hfind. exists col. tauto.
      + apply existsb_exists in Hex. destruct Hex as [c [Hc Hlike]].
        rewrite (find_none _ _ Hfind c Hc) in Hlike. discriminate. }
  destruct Hcol as [col [Hin [Hlike Hnorm]]].
  exists col. repeat split; try assumption.
  - rewrite columns_rename. apply in_map_iff. exists col.
    rewrite String.eqb_refl. auto.
  - apply cells_rename.
  - rewrite columns_rename. apply length_map.
  - intros i name Hi. rewrite columns_rename, nth_error_map, Hi. reflexivity.
  - intros Hnd. apply rename_NoDup; assumption.
Qed.

(** The column [" MONTH "] of the sample table is renamed. *)
Lemma normalize_columns_renames_witness :
  exists col,
    In col (columns sample_table) /\ month_like col = true /\
    normalize_columns sample_table = Some (rename sample_table col "Month") /\
    In "Month"%string (columns (rename sample_table col "Month")).
Proof.
  destruct (normalize_columns_renames sample_table eq_refl)
    as [col [Hin [Hlike [Hnorm [Hmonth _]]]]].
  exists col. repeat split; assumption.
Defined.

(** ** Column normalizer: no month column *)

Lemma find_all_false {A : Type} (f : A -> bool) (l : list A) :
  (forall a, In a l -> f a = false) -> find f l = None.
Proof.
  induction l as [| x l IH]; intros H; simpl; [reflexivity |].
  rewrite (H x) by (left; reflexivity). apply IH.
  intros a Ha. apply H. right. exact Ha.
Qed.

Lemma normalize_columns_none (data : RawTable) :
  (forall c, In c (columns data) -> month_like c = false) ->
  normalize_columns data = None.
Proof.
  intros H. unfold normalize_columns.
  destruct (in_columns "Month" data) eqn:Hin.
  - apply in_columns_In in Hin. apply H in Hin. discriminate.
  - rewrite find_all_false by exact H. reflexivity.
Qed.

Section Halt.

Context {E : Externals}.

(** C5. Without a column whose trimmed lowercase name is ["month"], the
    normalizer returns no table and the run stops with
    [MissingColumnError] right after the error message: nothing is
    loaded, fitted, forecast or shown after it, and the session state is
    left as it was. *)
Theorem missing_month_column_halts (i : Interaction) (ss : SessionState) :
  (forall c, In c (columns (csv i)) -> month_like c = false) ->
  normalize_columns (csv i) = None /\
  run i ss
  = (inl MissingColumnError, ss,
     [UiText "5-Year Revenue Forecasting App";
      UiText "#### Predict revenue trends for the next five years using ARIMA modeling.";
      UiSidebar;
      UiError "No 'Month' column found in the dataset. Please check the CSV file."]) /\
  fit_count (snd (run i ss)) = 0%nat /\
  (forall rest, fst (session (i :: rest) ss) = fst (session rest ss)).
Proof.
  intros H. pose proof (normalize_columns_none _ H) as Hnone.
  assert (Hrun : run i ss
    = (inl MissingColumnError, ss,
     [UiText "5-Year Revenue Forecasting App";
      UiText "#### Predict revenue trends for the next five years using ARIMA modeling.";
      UiSidebar;
      UiError "No 'Month' column found in the dataset. Please check the CSV file."])).
  { unfold run, script, normalizer, bind, emit, raise. rewrite Hnone.
    reflexivity. }
  split; [exact Hnone |]. split; [exact Hrun |].
  split; [rewrite Hrun; reflexivity |].
  intros rest. simpl. rewrite Hrun.
  destruct (session rest ss). reflexivity.
Qed.

End Halt.

(** A table with the columns ["Date"] and [" Revenue "] has no month
    column. *)
Lemma missing_month_column_halts_witness :
  fst (fst (@run flat_externals
         (mkInteraction [("Date"%string, [CStr "1972-01-01"]);
                         (" Revenue "%string, [CStr "$1,000.00"])]
                        PredictedData None)
         empty_session))
  = inl MissingColumnError.
Proof.
  refine (f_equal (fun r => fst (fst r))
            (proj1 (proj2 (@missing_month_column_halts flat_externals _ _ _)))).
  intros c [<- | [<- | []]]; reflexivity.
Defined.

(** ** Revenue cleaning *)



Lemma traverse_none {A B : Type} (f : A -> option B) (l : list A) (a : A) :
  In a l -> f a = None -> traverse f l = None.
Proof.
  induction l as [| x l IH]; intros Hin Ha; simpl in *; [contradiction |].
  destruct Hin as [-> | Hin].
  - rewrite Ha. reflexivity.
  - destruct (f x); [| reflexivity]. rewrite IH by assumption. reflexivity.
Qed.

(** *** What an accepted text is made of *)













(** *** Rounding to the nearest binary64 *)











(** *** The value read from a decimal literal *)






















Lemma lstrip_app_space (space : ascii -> bool) (pre s : string) :
  string_forall space pre = true ->
  lstrip space (pre ++ s) = lstrip space s.
Proof.
  induction pre as [| c pre IH]; intros H; [reflexivity |].
  cbn [string_forall] in H. apply andb_true_iff in H. destruct H as [Hc H].
  simpl. rewrite Hc. apply IH. exact H.
Qed.

Lemma rstrip_all_space (space : ascii -> bool) (s : string) :
  string_forall space s = true -> rstrip space s = EmptyString.
Proof.
  induction s as [| c s IH]; intros H; [reflexivity |].
  cbn [string_forall] in H. apply andb_true_iff in H. destruct H as [Hc H].
  simpl. rewrite (IH H), Hc. reflexivity.
Qed.

Lemma rstrip_app_space (space : ascii -> bool) (s post : string) :
  string_forall space post = true ->
  rstrip space (s ++ post) = rstrip space s.
Proof.
  intros H. induction s as [| c s IH]; simpl.
  - apply rstrip_all_space. exact H.
  - rewrite IH. reflexivity.
Qed.



(** *** Every text read as a number is a literal *)








(** *** Underscores *)









(** ** The model of the session *)

Lemma fit_count_app (l1 l2 : list Event) :
  fit_count (l1 ++ l2) = (fit_count l1 + fit_count l2)%nat.
Proof. unfold fit_count. rewrite filter_app, length_app. reflexivity. Qed.

Lemma fitted_count_app (l1 l2 : list Event) :
  fitted_count (l1 ++ l2) = (fitted_count l1 + fitted_count l2)%nat.
Proof. unfold fitted_count. rewrite filter_app, length_app. reflexivity. Qed.

Lemma calm_app (l1 l2 : list Event) : calm (l1 ++ l2) = calm l1 && calm l2.
Proof. apply forallb_app. Qed.

Lemma calm_counts (log : list Event) :
  calm log = true -> fit_count log = 0%nat /\ fitted_count log = 0%nat.
Proof.
  unfold calm, fit_count, fitted_count.
  induction log as [| ev log IH]; simpl; [auto |].
  intros H. apply andb_true_iff in H. destruct H as [Hev H].
  apply andb_true_iff in Hev. destruct Hev as [Hf Hd].
  apply negb_true_iff in Hf, Hd. rewrite Hf, Hd. apply IH. exact H.
Qed.

Section Cache.

Context {E : Externals}.

Lemma holds_ret {A : Type} (mu : option Model) (a : A) : holds mu (ret a).
Proof. intros ss H. simpl. auto. Qed.

Lemma holds_raise {A : Type} (mu : option Model) (e : Error) :
  holds mu (@raise E A e).
Proof. intros ss H. simpl. auto. Qed.

Lemma holds_or_raise {A : Type} (mu : option Model) (o : option A) (e : Error) :
  holds mu (or_raise o e).
Proof. destruct o; [apply holds_ret | apply holds_raise]. Qed.

Lemma holds_emit (mu : option Model) (ev : Event) :
  is_fit ev = false -> is_fitted ev = false -> holds mu (emit ev).
Proof.
  intros Hf Hd ss H. simpl. rewrite Hf, Hd. auto.
Qed.

Lemma holds_put (mu : option Model) (ss' : SessionState) :
  model ss' = mu -> holds mu (put ss').
Proof. intros H ss _. simpl. auto. Qed.

Lemma holds_bind {A B : Type} (mu : option Model) (c : M A) (f : A -> M B) :
  holds mu c -> (forall a, holds mu (f a)) -> holds mu (bind c f).
Proof.
  intros Hc Hf ss Hss. unfold bind.
  specialize (Hc ss Hss).
  destruct (c ss) as [[[e | a] s1] l1]; simpl in *; [exact Hc |].
  destruct Hc as [Hs1 Hl1]. specialize (Hf a s1 Hs1).
  destruct (f a s1) as [[r s2] l2]. simpl in *.
  rewrite calm_app, Hl1. exact Hf.
Qed.

Lemma holds_get_bind {B : Type} (mu : option Model) (f : SessionState -> M B) :
  (forall ss, model ss = mu -> holds mu (f ss)) -> holds mu (bind get f).
Proof.
  intros Hf ss Hss. unfold bind, get.
  specialize (Hf ss Hss ss Hss).
  destruct (f ss ss) as [[r s2] l2]. simpl in *. exact Hf.
Qed.

Lemma holds_normalizer (mu : option Model) (data : RawTable) :
  holds mu (normalizer data).
Proof.
  unfold normalizer. destruct (normalize_columns data); [apply holds_ret |].
  apply holds_bind; [apply holds_emit; reflexivity |].
  intros _. apply holds_raise.
Qed.

Lemma holds_loader (mu : option Model) (data : RawTable) :
  holds mu (loader data).
Proof.
  unfold loader.
  repeat (apply holds_bind; [apply holds_or_raise | intros ?]).
  apply holds_ret.
Qed.

Lemma holds_forecaster (mu : option Model) (m : Model) (df : Frame.t) :
  holds mu (forecaster m df).
Proof.
  unfold forecaster.
  apply holds_bind; [apply holds_emit; reflexivity | intros _].
  apply holds_bind; [apply holds_or_raise | intros ?].
  destruct (make_series _ _); [apply holds_raise | apply holds_ret].
Qed.

Lemma holds_draw (mu : option Model) (content : list Drawn) :
  holds mu (draw content).
Proof.
  unfold draw. destruct (pyplot content);
    [apply holds_emit; reflexivity | apply holds_raise].
Qed.

Lemma holds_presenter (mu : option Model) (page : Page) (slider : option Z)
    (data : DataFrame) (forecast_series : Frame.t) :
  holds mu (presenter page slider data forecast_series).
Proof.
  unfold presenter. apply holds_get_bind. intros ss Hss.
  apply holds_bind; [apply holds_put; exact Hss | intros _].
  destruct page.
  - apply holds_bind; [apply holds_emit; reflexivity | intros _].
    apply holds_emit; reflexivity.
  - apply holds_bind; [apply holds_emit; reflexivity | intros _].
    apply holds_bind; [apply holds_emit; reflexivity | intros _].
    apply holds_bind; [apply holds_put; exact Hss | intros _].
    apply holds_bind; [apply holds_emit; reflexivity | intros _].
    apply holds_bind; [apply holds_draw | intros _].
    induction (year_range 1972 _) as [| y years IH]; simpl.
    + apply holds_ret.
    + apply holds_bind; [apply holds_emit; reflexivity | intros _].
      apply holds_bind; [apply holds_draw | intros _]. exact IH.
  - apply holds_bind; [apply holds_emit; reflexivity | intros _].
    apply holds_bind; [apply holds_emit; reflexivity | intros _].
    apply holds_emit; reflexivity.
Qed.

(** With a model in the session, line 66 reads it: no fit, no event, no
    change. *)
Lemma trained_model_cached (df : Frame.t) (ss : SessionState) (m : Model) :
  model ss = Some m -> trained_model df ss = (inr m, ss, []).
Proof.
  intros H. unfold trained_model, bind, get. rewrite H. reflexivity.
Qed.

Lemma trained_model_fits (df : Frame.t) (ss : SessionState) (m : Model) :
  model ss = None -> auto_arima df = Some m ->
  trained_model df ss
  = (inr m, mkSession (Some m) (selected_end_year ss),
     [UiSpinner "Training ARIMA model..."; CallFit df;
      UiSuccess "Model trained successfully!"]).
Proof.
  intros H Hfit. unfold trained_model, bind, get. rewrite H. simpl.
  rewrite Hfit. reflexivity.
Qed.

Lemma trained_model_fails (df : Frame.t) (ss : SessionState) :
  model ss = None -> auto_arima df = None ->
  trained_model df ss = (inl ModelFitError, ss, [UiSpinner "Training ARIMA model..."; CallFit df]).
Proof.
  intros H Hfit. unfold trained_model, bind, get. rewrite H. simpl.
  rewrite Hfit. reflexivity.
Qed.

Lemma holds_trained_model (m : Model) (df : Frame.t) :
  holds (Some m) (trained_model df).
Proof.
  intros ss Hss. rewrite (trained_model_cached df ss m Hss). simpl. auto.
Qed.

Lemma holds_after_training (m : Model) (i : Interaction) (df : Frame.t)
    (data : DataFrame) :
  holds (Some m)
    (bind (trained_model df) (fun m' =>
       bind (forecaster m' df) (fun forecast_series =>
         presenter (page i) (slider i) data forecast_series))).
Proof.
  apply holds_bind; [apply holds_trained_model | intros m'].
  apply holds_bind; [apply holds_forecaster | intros fs].
  apply holds_presenter.
Qed.

(** A run that starts with a model keeps it and does not fit. *)
Lemma run_with_model (i : Interaction) (ss : SessionState) (m : Model) :
  model ss = Some m ->
  model (snd (fst (run i ss))) = Some m /\ calm (snd (run i ss)) = true.
Proof.
  revert ss. change (holds (Some m) (run i)). unfold run, script.
  repeat (apply holds_bind; [apply holds_emit; reflexivity | intros _]).
  apply holds_bind; [apply holds_normalizer | intros data].
  apply holds_bind; [apply holds_loader | intros loaded].
  apply holds_after_training.
Qed.

Lemma first_fit_bind {A B : Type} (c : M A) (f : A -> M B) :
  holds None c -> (forall a, first_fit (f a)) -> first_fit (bind c f).
Proof.
  intros Hc Hf ss Hss. unfold bind.
  specialize (Hc ss Hss).
  destruct (c ss) as [[[e | a] s1] l1]; simpl in *.
  - destruct Hc as [Hs1 Hl1]. apply calm_counts in Hl1.
    left. repeat split; [exact Hs1 | lia ..].
  - destruct Hc as [Hs1 Hl1]. apply calm_counts in Hl1.
    specialize (Hf a s1 Hs1).
    destruct (f a s1) as [[r s2] l2]. simpl in *.
    rewrite fit_count_app, fitted_count_app.
    destruct Hf as [[Hm H] | [m [Hm H]]];
      [left | right; exists m]; (split; [exact Hm | lia]).
Qed.

Lemma bind_ok {A B : Type} (c : M A) (f : A -> M B) (ss s1 : SessionState)
    (a : A) (l1 : list Event) :
  c ss = (inr a, s1, l1) ->
  bind c f ss = (fst (fst (f a s1)), snd (fst (f a s1)), l1 ++ snd (f a s1)).
Proof.
  intros H. unfold bind. rewrite H. destruct (f a s1) as [[r s2] l2].
  reflexivity.
Qed.

Lemma bind_err {A B : Type} (c : M A) (f : A -> M B) (ss s1 : SessionState)
    (e : Error) (l1 : list Event) :
  c ss = (inl e, s1, l1) -> bind c f ss = (inl e, s1, l1).
Proof. intros H. unfold bind. rewrite H. reflexivity. Qed.

Lemma first_fit_training (i : Interaction) (df : Frame.t) (data : DataFrame) :
  first_fit
    (bind (trained_model df) (fun m' =>
       bind (forecaster m' df) (fun forecast_series =>
         presenter (page i) (slider i) data forecast_series))).
Proof.
  intros ss Hss.
  destruct (auto_arima df) as [m |] eqn:Hfit.
  - rewrite (bind_ok _ _ _ _ _ _ (trained_model_fits df ss m Hss Hfit)).
    pose proof (holds_bind (Some m) (forecaster m df)
        (fun fs => presenter (page i) (slider i) data fs)
        (holds_forecaster _ m df)
        (fun fs => holds_presenter _ _ _ data fs)
        (mkSession (Some m) (selected_end_year ss)) eq_refl) as Hrest.
    destruct (bind (forecaster m df) _ _) as [[r s2] l2]. simpl in *.
    destruct Hrest as [Hs2 Hl2]. apply calm_counts in Hl2.
    right. exists m. split; [exact Hs2 |].
    unfold fit_count, fitted_count in *. simpl. lia.
  - rewrite (bind_err _ _ _ _ _ _ (trained_model_fails df ss Hss Hfit)).
    simpl. left. auto.
Qed.

Lemma run_without_model (i : Interaction) : first_fit (run i).
Proof.
  unfold run, script.
  repeat (apply first_fit_bind; [apply holds_emit; reflexivity | intros _]).
  apply first_fit_bind; [apply holds_normalizer | intros data].
  apply first_fit_bind; [apply holds_loader | intros loaded].
  apply first_fit_training.
Qed.

Lemma session_cons (i : Interaction) (rest : list Interaction) (ss : SessionState) :
  session (i :: rest) ss
  = (fst (session rest (snd (fst (run i ss)))),
     snd (run i ss) :: snd (session rest (snd (fst (run i ss))))).
Proof.
  simpl. destruct (run i ss) as [[r s1] l1]. simpl.
  destruct (session rest s1). reflexivity.
Qed.

Lemma session_app (pre post : list Interaction) (ss : SessionState) :
  session (pre ++ post) ss
  = (fst (session post (fst (session pre ss))),
     snd (session pre ss) ++ snd (session post (fst (session pre ss)))).
Proof.
  revert ss. induction pre as [| i pre IH]; intros ss.
  - simpl. destruct (session post ss). reflexivity.
  - rewrite <- app_comm_cons, !session_cons, IH. reflexivity.
Qed.

Lemma session_with_model (inputs : list Interaction) (ss : SessionState)
    (m : Model) :
  model ss = Some m ->
  model (fst (session inputs ss)) = Some m /\
  fit_count (List.concat (snd (session inputs ss))) = 0%nat /\
  fitted_count (List.concat (snd (session inputs ss))) = 0%nat.
Proof.
  revert ss. induction inputs as [| i rest IH]; intros ss Hss.
  - simpl. auto.
  - rewrite session_cons. simpl.
    destruct (run_with_model i ss m Hss) as [Hs1 Hl1].
    apply calm_counts in Hl1.
    destruct (IH _ Hs1) as [Hm [Hf Hd]].
    rewrite fit_count_app, fitted_count_app. repeat split; [exact Hm | lia ..].
Qed.

Lemma session_fitted_once (inputs : list Interaction) (ss : SessionState) :
  (fitted_count (List.concat (snd (session inputs ss))) <= 1)%nat.
Proof.
  revert ss. induction inputs as [| i rest IH]; intros ss.
  - simpl. unfold fitted_count. simpl. lia.
  - rewrite session_cons. simpl. rewrite fitted_count_app.
    destruct (model ss) as [m |] eqn:Hss.
    + destruct (session_with_model (i :: rest) ss m Hss) as [_ [_ Hd]].
      rewrite session_cons in Hd. simpl in Hd.
      rewrite fitted_count_app in Hd. lia.
    + destruct (run_without_model i ss Hss) as [[Hs1 [Hd _]] | [m [Hs1 [Hd _]]]].
      * specialize (IH (snd (fst (run i ss)))). lia.
      * destruct (session_with_model rest _ m Hs1) as [_ [_ Hd']]. lia.
Qed.

(** C9, as the code has it. In a session at most one call of the fit
    returns a model. Once a model is stored, every later run keeps it
    unchanged and calls no fit, and line 66 reads that very model. A run
    that starts without a model fits at most once: the model returned is
    stored, and a fit that fails stores nothing. *)
Theorem model_fit_once_cached (inputs : list Interaction) (ss : SessionState) :
  (fitted_count (List.concat (snd (session inputs ss))) <= 1)%nat /\
  (forall m, model ss = Some m ->
     model (fst (session inputs ss)) = Some m /\
     fit_count (List.concat (snd (session inputs ss))) = 0%nat) /\
  (forall pre post m, inputs = pre ++ post ->
     model (fst (session pre ss)) = Some m ->
     model (fst (session inputs ss)) = Some m /\
     fit_count (List.concat (snd (session post (fst (session pre ss))))) = 0%nat) /\
  (forall df m, model ss = Some m -> trained_model df ss = (inr m, ss, [])) /\
  (forall df m, model ss = None -> auto_arima df = Some m ->
     trained_model df ss
     = (inr m, mkSession (Some m) (selected_end_year ss),
        [UiSpinner "Training ARIMA model..."; CallFit df;
      UiSuccess "Model trained successfully!"])) /\
  (forall df, model ss = None -> auto_arima df = None ->
     trained_model df ss = (inl ModelFitError, ss, [UiSpinner "Training ARIMA model..."; CallFit df])) /\
  (forall i, (fit_count (snd (run i ss)) <= 1)%nat).
Proof.
  split; [apply session_fitted_once |].
  split.
  { intros m Hss. destruct (session_with_model inputs ss m Hss) as [H1 [H2 _]].
    auto. }
  split.
  { intros pre post m -> Hpre. rewrite session_app. simpl.
    destruct (session_with_model post _ m Hpre) as [H1 [H2 _]]. auto. }
  split; [intros df m; apply trained_model_cached |].
  split; [intros df m; apply trained_model_fits |].
  split; [intros df; apply trained_model_fails |].
  intros i. destruct (model ss) as [m |] eqn:Hss.
  - destruct (run_with_model i ss m Hss) as [_ Hl].
    apply calm_counts in Hl. lia.
  - destruct (run_without_model i ss Hss) as [[_ [_ H]] | [m [_ [_ H]]]]; lia.
Qed.

End Cache.

(** C9 does not hold when a fit fails: a file with no row cannot be
    fitted, nothing is stored, and each of two runs calls the fit. *)
Lemma fit_called_again_after_failure :
  fit_count (List.concat (snd (@session flat_externals
      [mkInteraction empty_csv Welcome None;
       mkInteraction empty_csv Welcome None] empty_session))) = 2%nat /\
  model (fst (@session flat_externals
      [mkInteraction empty_csv Welcome None;
       mkInteraction empty_csv Welcome None] empty_session)) = None.
Proof. split; reflexivity. Qed.

(** A file of three years, seen twice: one fit, in the first run. *)
Lemma fit_called_once_in_two_runs :
  map fit_count (snd (@session flat_externals
      [mkInteraction monthly_csv PredictedData None;
       mkInteraction monthly_csv ForecastTable None] empty_session))
  = [1%nat; 0%nat] /\
  model (fst (@session flat_externals
      [mkInteraction monthly_csv PredictedData None;
       mkInteraction monthly_csv ForecastTable None] empty_session))
  = Some (f64 1350).
Proof. split; vm_compute; reflexivity. Qed.

(** * Further properties of the code *)

(** ** More on the calendar *)

Lemma get_days_in_month_bounds (y m : Z) :
  1 <= m <= 12 -> 28 <= get_days_in_month y m <= 31.
Proof.
  intros Hm. unfold get_days_in_month, days_per_month_table.
  assert (Hcases : m = 1 \/ m = 2 \/ m = 3 \/ m = 4 \/ m = 5 \/ m = 6 \/
                   m = 7 \/ m = 8 \/ m = 9 \/ m = 10 \/ m = 11 \/ m = 12) by lia.
  destruct (is_leapyear y);
    repeat (destruct Hcases as [-> | Hcases]; [simpl; lia |]);
    subst; simpl; lia.
Qed.

Lemma MonthEnd_valid (n : Z) (t : Timestamp) :
  time_of_day_ok t -> valid_ts (MonthEnd n t).
Proof.
  intros Ht. destruct (MonthEnd_key n t) as [Hm Hon].
  unfold is_on_offset in Hon. apply Z.eqb_eq in Hon.
  pose proof (get_days_in_month_bounds (year (MonthEnd n t)) _ Hm) as Hd.
  unfold valid_ts. rewrite MonthEnd_nanos. repeat split; try lia; apply Ht.
Qed.

(** X1. Line 47 keeps the dates well formed: when the times of day of
    the input are in range, every key of the regularized series is a
    valid calendar date (month 1 to 12, day 1 to the length of the
    month), whatever the input dates were. *)
Theorem regularize_valid_dates (df : Frame.t) :
  Forall time_of_day_ok (Frame.index df) ->
  Forall valid_ts (Frame.index (regularize df)).
Proof.
  intros H. rewrite Forall_forall in H. apply Forall_forall. intros k Hk.
  rewrite index_regularize in Hk. apply In_index_dedup_from in Hk.
  destruct Hk as [Hk _]. rewrite index_align in Hk.
  apply in_map_iff in Hk. destruct Hk as [k0 [<- Hk0]].
  apply MonthEnd_valid. apply H. exact Hk0.
Qed.

(** The three sample rows are dated at midnight. *)
Lemma regularize_valid_dates_witness :
  Forall valid_ts (Frame.index (regularize three_months)).
Proof.
  apply regularize_valid_dates.
  repeat constructor; vm_compute; congruence.
Defined.

Lemma valid_ts_month (t : Timestamp) : valid_ts t -> 1 <= month t <= 12.
Proof. intros [H _]. exact H. Qed.

Lemma valid_ts_back (t : Timestamp) :
  valid_ts t -> MonthEnd (-1) t = shift_months_end t (-1).
Proof. intros [_ [[_ Hd] _]]. apply MonthEnd_back_valid. exact Hd. Qed.

(** X2. Two well-formed dates are moved by line 47 to the same key
    exactly when they lie in the same calendar month at the same time of
    day; the key is in the month before the date, strictly earlier than
    the date. *)
Theorem alignment_collides_within_a_month (a b : Timestamp) :
  valid_ts a -> valid_ts b ->
  (MonthEnd (-1) a = MonthEnd (-1) b <->
   year a = year b /\ month a = month b /\ nanos a = nanos b) /\
  month_ordinal (MonthEnd (-1) a) = month_ordinal a - 1 /\
  ts_lt (MonthEnd (-1) a) a.
Proof.
  intros Ha Hb.
  assert (Hoa : month_ordinal (MonthEnd (-1) a) = month_ordinal a - 1).
  { rewrite (valid_ts_back a Ha), month_ordinal_shift. lia. }
  assert (Hob : month_ordinal (MonthEnd (-1) b) = month_ordinal b - 1).
  { rewrite (valid_ts_back b Hb), month_ordinal_shift. lia. }
  split; [| split; [exact Hoa |]].
  - split.
    + intros Heq.
      pose proof (f_equal month_ordinal Heq) as Ho.
      pose proof (f_equal nanos Heq) as Hn.
      rewrite Hoa, Hob in Ho. rewrite !MonthEnd_nanos in Hn.
      pose proof (valid_ts_month a Ha). pose proof (valid_ts_month b Hb).
      unfold month_ordinal in Ho. repeat split; lia.
    + intros [Hy [Hm Hn]].
      apply month_end_key_inj; try apply MonthEnd_key.
      * rewrite Hoa, Hob. unfold month_ordinal. lia.
      * rewrite !MonthEnd_nanos. exact Hn.
  - apply month_ordinal_lt.
    + apply MonthEnd_key.
    + apply (valid_ts_month a Ha).
    + lia.
Qed.

(** The 5th and the 20th of January 1972. *)
Lemma alignment_collides_within_a_month_witness :
  MonthEnd (-1) (date 1972 1 5) = MonthEnd (-1) (date 1972 1 20) /\
  ts_lt (MonthEnd (-1) (date 1972 1 5)) (date 1972 1 5).
Proof.
  assert (Ha : valid_ts (date 1972 1 5)) by (vm_compute; repeat split; congruence).
  assert (Hb : valid_ts (date 1972 1 20)) by (vm_compute; repeat split; congruence).
  destruct (alignment_collides_within_a_month _ _ Ha Hb) as [Hiff [_ Hlt]].
  split; [apply Hiff; repeat split | exact Hlt].
Defined.

(** [MonthEnd] steps add up from a month end. *)
Lemma MonthEnd_MonthEnd (a b : Z) (t : Timestamp) :
  month_end_key t -> MonthEnd a (MonthEnd b t) = MonthEnd (a + b) t.
Proof.
  intros Ht. apply month_end_key_inj; try apply MonthEnd_key.
  - rewrite (MonthEnd_on_offset a (MonthEnd b t)) by apply MonthEnd_key.
    rewrite !(MonthEnd_on_offset _ t) by apply Ht.
    rewrite !month_ordinal_shift. lia.
  - rewrite !MonthEnd_nanos. reflexivity.
Qed.

(** One step forward from the aligned date is the end of the month of
    the date itself. *)
Lemma MonthEnd_back_forward (t : Timestamp) :
  valid_ts t -> MonthEnd 1 (MonthEnd (-1) t) = rollforward t.
Proof.
  intros Ht. unfold rollforward.
  destruct (is_on_offset t) eqn:Hon.
  - assert (Hk : month_end_key t) by (split; [apply (valid_ts_month t Ht) | exact Hon]).
    rewrite (MonthEnd_MonthEnd 1 (-1) t Hk). simpl.
    apply month_end_key_inj; try apply MonthEnd_key; try exact Hk.
    + rewrite MonthEnd_on_offset, month_ordinal_shift by exact Hon. lia.
    + apply MonthEnd_nanos.
  - apply month_end_key_inj; try apply MonthEnd_key.
    + rewrite (MonthEnd_on_offset 1 (MonthEnd (-1) t)) by apply MonthEnd_key.
      rewrite month_ordinal_shift, (valid_ts_back t Ht), month_ordinal_shift.
      unfold MonthEnd at 1, roll_convention.
      destruct Ht as [_ [[_ Hd] _]].
      unfold is_on_offset in Hon. apply Z.eqb_neq in Hon.
      destruct (Z.ltb_spec (day t) (get_days_in_month (year t) (month t)));
        [| lia].
      simpl. rewrite month_ordinal_shift. lia.
    + rewrite !MonthEnd_nanos. reflexivity.
Qed.

Lemma rollforward_same_month (t : Timestamp) :
  valid_ts t ->
  month_ordinal (rollforward t) = month_ordinal t /\
  is_on_offset (rollforward t) = true.
Proof.
  intros Ht. unfold rollforward. destruct (is_on_offset t) eqn:Hon; [auto |].
  split; [| apply MonthEnd_key].
  unfold MonthEnd, roll_convention.
  destruct Ht as [_ [[_ Hd] _]].
  unfold is_on_offset in Hon. apply Z.eqb_neq in Hon.
  destruct (Z.ltb_spec (day t) (get_days_in_month (year t) (month t))); [| lia].
  simpl. rewrite month_ordinal_shift. lia.
Qed.

(** ** The forecast against the input dates *)

Lemma last_map {A B : Type} (f : A -> B) (l : list A) (d : A) :
  last (map f l) (f d) = f (last l d).
Proof.
  induction l as [| x l IH]; [reflexivity |].
  destruct l as [| y l']; [reflexivity |].
  change (last (map f (x :: y :: l')) (f d)) with (last (map f (y :: l')) (f d)).
  exact IH.
Qed.

Lemma last_index_align (df : Frame.t) :
  last_index (align df) = option_map (MonthEnd (-1)) (last_index df).
Proof.
  unfold last_index. rewrite index_align.
  destruct (Frame.index df) as [| k rest]; [reflexivity |].
  simpl. rewrite last_map. reflexivity.
Qed.

Lemma last_index_fill_rows (last : option spec_float) (df : Frame.t) :
  last_index (fill_rows last df) = last_index df.
Proof. unfold last_index. rewrite index_fill_rows. reflexivity. Qed.

(** With distinct adjusted keys no row is dropped. *)
Lemma regularize_distinct_keys (df : Frame.t) :
  NoDup (Frame.index (align df)) ->
  regularize df = fill_rows None (align df).
Proof.
  intros Hnd. rewrite regularize_rows, dedup_from_NoDup;
    [reflexivity | exact Hnd | intros k _ []].
Qed.

(** X3. When no two rows share an adjusted key, the last key of the
    regularized series is the last input date moved one month end back,
    so the first forecast date of lines 68-70 is the end of the calendar
    month of the last input row itself, not of the month after it. *)
Theorem forecast_starts_in_last_observed_month (df : Frame.t) (k : Timestamp) :
  NoDup (Frame.index (align df)) ->
  last_index df = Some k ->
  valid_ts k ->
  last_index (regularize df) = Some (MonthEnd (-1) k) /\
  hd_error (forecast_index (MonthEnd (-1) k) n_periods) = Some (rollforward k) /\
  month_ordinal (rollforward k) = month_ordinal k /\
  is_on_offset (rollforward k) = true.
Proof.
  intros Hnd Hlast Hk.
  split.
  { rewrite (regularize_distinct_keys df Hnd), last_index_fill_rows,
      last_index_align, Hlast. reflexivity. }
  split; [| apply rollforward_same_month; exact Hk].
  rewrite forecast_index_from_key by apply MonthEnd_key.
  simpl. rewrite (MonthEnd_back_forward k Hk). reflexivity.
Qed.

(** The sample ends in March 1972: its forecast starts on 1972-03-31. *)
Lemma forecast_starts_in_last_observed_month_witness :
  last_index (regularize three_months) = Some (date 1972 2 29) /\
  hd_error (forecast_index (date 1972 2 29) n_periods) = Some (date 1972 3 31).
Proof.
  destruct (forecast_starts_in_last_observed_month three_months (date 1972 3 1))
    as [H1 [H2 _]].
  - repeat constructor; simpl; intuition discriminate.
  - reflexivity.
  - vm_compute. repeat split; congruence.
  - split; [exact H1 | exact H2].
Defined.

Lemma length_forecast_index (start : Timestamp) (n : nat) :
  List.length (forecast_index start n) = n.
Proof.
  unfold forecast_index, date_range. rewrite Nat.add_1_r.
  apply length_generate_range.
Qed.

(** X4. For any start date with a month from 1 to 12, a month end or
    not, lines 68-70 give [n] month ends in strictly increasing order,
    the [i]-th being [i + 1] month-end steps after the start rolled
    forward onto a month end; month-end steps add up from a month end. *)
Theorem forecast_index_closed_form (start : Timestamp) (n : nat) :
  1 <= month start <= 12 ->
  List.length (forecast_index start n) = n /\
  (forall i, (i < n)%nat ->
     nth_error (forecast_index start n) i
     = Some (MonthEnd (Z.of_nat i + 1) (rollforward start))) /\
  Forall month_end_key (forecast_index start n) /\
  strictly_increasing (forecast_index start n) /\
  (forall a b t, month_end_key t -> MonthEnd a (MonthEnd b t) = MonthEnd (a + b) t).
Proof.
  intros Hm.
  assert (Hkey : month_end_key (rollforward start)).
  { unfold rollforward. destruct (is_on_offset start) eqn:Hon.
    - split; assumption.
    - apply MonthEnd_key. }
  assert (Hidx : forecast_index start n
                 = generate_range (MonthEnd 1 (rollforward start)) n).
  { unfold forecast_index, date_range. rewrite Nat.add_1_r. reflexivity. }
  assert (Hmonthly : monthly_from (month_ordinal (rollforward start) + 1)
                                  (forecast_index start n)).
  { intros i a Ha. rewrite Hidx in Ha.
    destruct (generate_range_monthly _ _ (MonthEnd_key 1 _) i a Ha)
      as [Hk [Ho _]].
    rewrite MonthEnd_on_offset, month_ordinal_shift in Ho by apply Hkey.
    split; [exact Hk | lia]. }
  split; [rewrite Hidx; apply length_generate_range |].
  split.
  { intros i Hi.
    destruct (nth_error (forecast_index start n) i) as [a |] eqn:Ha.
    - f_equal. apply month_end_key_inj; try apply MonthEnd_key.
      + apply (Hmonthly i a Ha).
      + destruct (Hmonthly i a Ha) as [_ Ho]. rewrite Ho.
        rewrite MonthEnd_on_offset, month_ordinal_shift by apply Hkey. lia.
      + rewrite Hidx in Ha.
        destruct (generate_range_monthly _ _ (MonthEnd_key 1 _) i a Ha)
          as [_ [_ Hn]].
        rewrite Hn, !MonthEnd_nanos. reflexivity.
    - apply nth_error_None in Ha.
      rewrite Hidx, length_generate_range in Ha. lia. }
  split; [eapply monthly_from_keys; exact Hmonthly |].
  split; [eapply monthly_from_increasing; exact Hmonthly |].
  intros a b t. apply MonthEnd_MonthEnd.
Qed.

(** From 1972-01-15 the first date is 1972-02-29: the end of January
    is dropped with the head of the range. *)
Lemma forecast_index_closed_form_witness :
  nth_error (forecast_index (date 1972 1 15) n_periods) 0
  = Some (date 1972 2 29).
Proof.
  refine (proj1 (proj2 (forecast_index_closed_form (date 1972 1 15) n_periods _))
            O _).
  - simpl. lia.
  - unfold n_periods. lia.
Defined.

(** ** More on the regularizer *)

Lemma length_dedup_from (seen : list Timestamp) (df : Frame.t) :
  (List.length (dedup_from seen df) <= List.length df)%nat.
Proof.
  revert seen. induction df as [| r df IH]; intros seen; simpl; [lia |].
  specialize (IH (fst r :: seen)).
  destruct (existsb (ts_eqb (fst r)) seen); simpl; lia.
Qed.

Lemma length_fill_rows (last : option spec_float) (df : Frame.t) :
  List.length (fill_rows last df) = List.length df.
Proof.
  revert last. induction df as [| [k x] df IH]; intros last; simpl; [reflexivity |].
  destruct (Frame.isna x); [destruct last |]; simpl; rewrite IH; reflexivity.
Qed.

Lemma column_fill_rows (last : option spec_float) (df : Frame.t) :
  Frame.column (fill_rows last df) = Frame.ffill_from last (Frame.column df).
Proof.
  unfold Frame.column.
  revert last. induction df as [| [k x] df IH]; intros last; simpl; [reflexivity |].
  destruct (Frame.isna x); [destruct last |]; simpl; rewrite IH; reflexivity.
Qed.

(** X5. The regularizer never adds a row: its keys are exactly the
    adjusted input dates, it is empty only on an empty input, and when
    the adjusted dates are distinct it keeps every row in order, with the
    revenues of the input forward filled. *)
Theorem regularize_rows_kept (df : Frame.t) :
  (List.length (regularize df) <= List.length df)%nat /\
  (forall k, In k (Frame.index (regularize df)) <->
             In k (map (MonthEnd (-1)) (Frame.index df))) /\
  (df = [] <-> regularize df = []) /\
  (NoDup (map (MonthEnd (-1)) (Frame.index df)) ->
   Frame.index (regularize df) = map (MonthEnd (-1)) (Frame.index df) /\
   Frame.column (regularize df) = Frame.ffill (Frame.column df)).
Proof.
  split.
  { rewrite regularize_rows, length_fill_rows.
    pose proof (length_dedup_from [] (align df)) as Hle.
    assert (Hlen : List.length (align df) = List.length df)
      by (rewrite align_rows; apply length_map).
    lia. }
  split.
  { intros k. rewrite index_regularize, In_index_dedup_from, index_align.
    simpl. tauto. }
  split.
  { split; [intros ->; reflexivity |].
    intros H. destruct df as [| r df]; [reflexivity |].
    exfalso. apply (regularize_nonempty (r :: df)); [discriminate | exact H]. }
  intros Hnd. rewrite <- index_align in Hnd.
  rewrite (regularize_distinct_keys df Hnd).
  rewrite index_fill_rows, column_fill_rows, index_align, column_align.
  split; reflexivity.
Qed.

Lemma dedup_from_seen_equiv (s1 s2 : list Timestamp) (df : Frame.t) :
  (forall k, In k s1 <-> In k s2) -> dedup_from s1 df = dedup_from s2 df.
Proof.
  revert s1 s2. induction df as [| r df IH]; intros s1 s2 H; simpl;
    [reflexivity |].
  assert (Hex : existsb (ts_eqb (fst r)) s1 = existsb (ts_eqb (fst r)) s2).
  { destruct (existsb (ts_eqb (fst r)) s1) eqn:H1;
      destruct (existsb (ts_eqb (fst r)) s2) eqn:H2; try reflexivity.
    - apply existsb_ts_In in H1. apply existsb_ts_not_In in H2.
      apply H in H1. contradiction.
    - apply existsb_ts_In in H2. apply existsb_ts_not_In in H1.
      apply H in H2. contradiction. }
  rewrite Hex.
  rewrite (IH (fst r :: s1) (fst r :: s2));
    [reflexivity | intros k; simpl; rewrite H; tauto].
Qed.

Lemma dedup_from_app (seen : list Timestamp) (a b : Frame.t) :
  dedup_from seen (a ++ b)
  = dedup_from seen a ++ dedup_from (rev (Frame.index a) ++ seen) b.
Proof.
  revert seen. induction a as [| r a IH]; intros seen; simpl; [reflexivity |].
  rewrite IH, <- app_assoc. simpl.
  destruct (existsb (ts_eqb (fst r)) seen); reflexivity.
Qed.

Lemma dedup_from_all_seen (seen : list Timestamp) (df : Frame.t) :
  (forall k, In k (Frame.index df) -> In k seen) -> dedup_from seen df = [].
Proof.
  revert seen. induction df as [| r df IH]; intros seen H; simpl; [reflexivity |].
  assert (Hr : existsb (ts_eqb (fst r)) seen = true).
  { apply existsb_ts_In. apply H. left. reflexivity. }
  rewrite Hr. apply IH. intros k Hk. right. apply H. right. exact Hk.
Qed.

Lemma align_app (a b : Frame.t) : align (a ++ b) = align a ++ align b.
Proof. rewrite !align_rows. apply map_app. Qed.

(** X6. Rows whose adjusted key already occurred earlier have no
    influence at all: removing them from the input leaves the regularized
    series unchanged, so their revenue is never used, not even by the
    forward fill of line 49. *)
Theorem repeated_months_have_no_effect (pre extra post : Frame.t) :
  (forall k, In k (Frame.index extra) ->
     In (MonthEnd (-1) k) (map (MonthEnd (-1)) (Frame.index pre))) ->
  regularize (pre ++ extra ++ post) = regularize (pre ++ post).
Proof.
  intros H.
  assert (Hseen : forall k, In k (Frame.index (align extra)) ->
            In k (Frame.index (align pre))).
  { intros k Hk. rewrite index_align in Hk. apply in_map_iff in Hk.
    destruct Hk as [k0 [<- Hk0]]. rewrite index_align. apply H. exact Hk0. }
  rewrite !regularize_rows, !align_app, !dedup_from_app, app_nil_r.
  rewrite (dedup_from_all_seen (rev (Frame.index (align pre))) (align extra)).
  - simpl. f_equal. f_equal. apply dedup_from_seen_equiv.
    intros k. rewrite !in_app_iff, <- !in_rev. split; [| tauto].
    intros [Hk | Hk]; [apply Hseen; exact Hk | exact Hk].
  - intros k Hk. rewrite <- in_rev. apply Hseen. exact Hk.
Qed.

(** A second row for February, with a revenue of 200, changes nothing. *)
Lemma repeated_months_have_no_effect_witness :
  regularize ([(date 1972 1 1, f64 100); (date 1972 2 1, S754_nan)]
              ++ [(date 1972 2 20, f64 200)] ++ [(date 1972 3 1, S754_nan)])
  = [(date 1971 12 31, f64 100); (date 1972 1 31, f64 100);
     (date 1972 2 29, f64 100)].
Proof.
  rewrite repeated_months_have_no_effect.
  - reflexivity.
  - intros k [<- | []]. right. left. reflexivity.
Defined.

(** ** More on the forward fill *)

Lemma ffill_from_Some_no_missing (v : spec_float) (col : list spec_float) :
  Frame.isna v = false -> no_missing (Frame.ffill_from (Some v) col).
Proof.
  unfold no_missing. revert v. induction col as [| x col IH]; intros v Hv; simpl;
    [constructor |].
  destruct (Frame.isna x) eqn:Hx; constructor; auto.
Qed.

Lemma ffill_from_no_missing (last : option spec_float) (col : list spec_float) :
  no_missing col -> Frame.ffill_from last col = col.
Proof.
  unfold no_missing. revert last. induction col as [| x col IH]; intros last H;
    simpl; [reflexivity |].
  inversion H as [| ? ? Hx Hrest]; subst. rewrite Hx. f_equal. apply IH. exact Hrest.
Qed.

(** X7. After the forward fill the column has no missing value exactly
    when it is empty or starts with a valid value; a column with no
    missing value is left as it is, and filling twice is filling once. *)
Theorem forward_fill_leaves_only_leading_gaps (col : list spec_float) :
  (no_missing (Frame.ffill col) <->
   (forall x, hd_error col = Some x -> Frame.isna x = false)) /\
  (no_missing col -> Frame.ffill col = col) /\
  Frame.ffill (Frame.ffill col) = Frame.ffill col /\
  (forall x rest, col = x :: rest -> Frame.isna x = false ->
     no_missing (Frame.ffill col)).
Proof.
  assert (Hvalid : forall x rest, Frame.isna x = false ->
            no_missing (Frame.ffill (x :: rest))).
  { intros x rest Hx. unfold Frame.ffill. simpl. rewrite Hx.
    constructor; [exact Hx | apply ffill_from_Some_no_missing; exact Hx]. }
  split; [| split; [| split]].
  - split.
    + intros H x Hhd. destruct col as [| y rest]; [discriminate |].
      injection Hhd as ->. unfold Frame.ffill in H. simpl in H.
      destruct (Frame.isna x) eqn:Hx; [| reflexivity].
      inversion H; subst. congruence.
    + intros H. destruct col as [| x rest]; [constructor |].
      apply Hvalid. apply H. reflexivity.
  - apply ffill_from_no_missing.
  - unfold Frame.ffill.
    pose proof (fill_rows_idem None (combine (repeat (date 0 1 1) (List.length col)) col)) as Hidem.
    assert (Hcol : forall c : list spec_float,
              Frame.column (combine (repeat (date 0 1 1) (List.length c)) c) = c).
    { intros c. apply column_combine. apply repeat_length. }
    apply (f_equal Frame.column) in Hidem; [| discriminate].
    rewrite !column_fill_rows, Hcol in Hidem. exact Hidem.
  - intros x rest -> Hx. apply Hvalid. exact Hx.
Qed.

(** ** More on the column normalizer *)

Lemma month_like_Month : month_like "Month" = true.
Proof. reflexivity. Qed.

Lemma find_app_first {A : Type} (f : A -> bool) (pre post : list A) (a : A) :
  (forall x, In x pre -> f x = false) -> f a = true ->
  find f (pre ++ a :: post) = Some a.
Proof.
  induction pre as [| x pre IH]; intros Hpre Ha; simpl.
  - rewrite Ha. reflexivity.
  - rewrite (Hpre x) by (left; reflexivity). apply IH; [| exact Ha].
    intros y Hy. apply Hpre. right. exact Hy.
Qed.

Lemma columns_app (a b : RawTable) : columns (a ++ b) = columns a ++ columns b.
Proof. apply map_app. Qed.

Lemma rename_app (a b : RawTable) (col new : string) :
  rename (a ++ b) col new = rename a col new ++ rename b col new.
Proof. apply map_app. Qed.

Lemma normalize_columns_has_Month (data data' : RawTable) :
  normalize_columns data = Some data' -> In "Month"%string (columns data').
Proof.
  intros Hnorm. unfold normalize_columns in Hnorm.
  destruct (in_columns "Month" data) eqn:Hm.
  - injection Hnorm as <-. apply in_columns_In. exact Hm.
  - destruct (find month_like (columns data)) as [col |] eqn:Hfind;
      [| discriminate].
    injection Hnorm as <-. apply find_some in Hfind.
    rewrite columns_rename. apply in_map_iff. exists col.
    rewrite String.eqb_refl. tauto.
Qed.

(** X8. A table the normalizer returns has a column ["Month"] and goes
    through the normalizer unchanged. With no column ["Month"] in the
    input, the column renamed is the first one whose name is month-like;
    the columns before and after it are left as they are when none of
    the later ones has the same name. *)
Theorem normalize_columns_idempotent (data data' : RawTable) :
  normalize_columns data = Some data' ->
  In "Month"%string (columns data') /\
  normalize_columns data' = Some data' /\
  (forall pre c cells post,
     data = pre ++ (c, cells) :: post ->
     ~ In "Month"%string (columns data) ->
     (forall x, In x (columns pre) -> month_like x = false) ->
     month_like c = true -> ~ In c (columns post) ->
     data' = pre ++ ("Month"%string, cells) :: post).
Proof.
  intros Hnorm.
  pose proof (normalize_columns_has_Month data data' Hnorm) as Hin.
  split; [exact Hin |]. split.
  - unfold normalize_columns. apply in_columns_In in Hin. rewrite Hin.
    reflexivity.
  - intros pre c cells post -> Hno Hpre Hc Hpost.
    unfold normalize_columns in Hnorm.
    destruct (in_columns "Month" (pre ++ (c, cells) :: post)) eqn:Hm.
    + apply in_columns_In in Hm. contradiction.
    + rewrite columns_app in Hnorm. simpl in Hnorm.
      rewrite (find_app_first month_like (columns pre) (columns post) c Hpre Hc)
        in Hnorm.
      injection Hnorm as <-.
      rewrite rename_app. simpl. rewrite String.eqb_refl. simpl.
      rewrite (rename_absent pre), (rename_absent post); [reflexivity | exact Hpost |].
      intros Hcpre. apply Hpre in Hcpre. congruence.
Qed.

(** The column [month] is renamed, [MONTH] is not. *)
Lemma normalize_columns_idempotent_witness :
  normalize_columns
    [("id"%string, [CNum (f64 1)]); ("Month"%string, [CStr "1972-01-01"]);
     ("MONTH"%string, [CStr "Jan"])]
  = Some [("id"%string, [CNum (f64 1)]); ("Month"%string, [CStr "1972-01-01"]);
          ("MONTH"%string, [CStr "Jan"])].
Proof.
  refine (proj1 (proj2 (normalize_columns_idempotent
    [("id"%string, [CNum (f64 1)]); ("month"%string, [CStr "1972-01-01"]);
     ("MONTH"%string, [CStr "Jan"])] _ _))).
  reflexivity.
Defined.

Lemma lstrip_all_space (space : ascii -> bool) (s : string) :
  string_forall space s = true -> lstrip space s = EmptyString.
Proof.
  induction s as [| c s IH]; intros H; [reflexivity |].
  cbn [string_forall] in H. apply andb_true_iff in H. destruct H as [Hc H].
  simpl. rewrite Hc. apply IH. exact H.
Qed.

Lemma strip_with_app_space (space : ascii -> bool) (s post : string) :
  string_forall space post = true ->
  strip_with space (s ++ post) = strip_with space s.
Proof.
  intros H. unfold strip_with. induction s as [| c s IH]; simpl.
  - rewrite (lstrip_all_space space post H). reflexivity.
  - destruct (space c); [exact IH |].
    apply (rstrip_app_space space (String c s) post H).
Qed.

Lemma lower_char_idem (c : ascii) : lower_char (lower_char c) = lower_char c.
Proof.
  destruct c as [[] [] [] [] [] [] [] []]; reflexivity.
Qed.

Lemma str_isspace_lower_char (c : ascii) :
  str_isspace (lower_char c) = str_isspace c.
Proof.
  destruct c as [[] [] [] [] [] [] [] []]; reflexivity.
Qed.

Lemma lstrip_lower (s : string) :
  lstrip str_isspace (lower s) = lower (lstrip str_isspace s).
Proof.
  induction s as [| c s IH]; [reflexivity |].
  simpl. rewrite str_isspace_lower_char.
  destruct (str_isspace c); [exact IH | reflexivity].
Qed.

Lemma rstrip_lower (s : string) :
  rstrip str_isspace (lower s) = lower (rstrip str_isspace s).
Proof.
  induction s as [| c s IH]; [reflexivity |].
  simpl. rewrite IH, str_isspace_lower_char.
  destruct (rstrip str_isspace s); simpl; [| reflexivity].
  destruct (str_isspace c); reflexivity.
Qed.

Lemma lower_idem (s : string) : lower (lower s) = lower s.
Proof.
  induction s as [| c s IH]; [reflexivity |].
  simpl. rewrite lower_char_idem, IH. reflexivity.
Qed.

(** X9. The test of line 30 ignores white space around the name and
    the case of its letters. *)
Theorem month_like_ignores_case_and_margins (pre s post : string) :
  string_forall str_isspace pre = true ->
  string_forall str_isspace post = true ->
  month_like (pre ++ s ++ post) = month_like s /\
  month_like (lower s) = month_like s.
Proof.
  intros Hpre Hpost. unfold month_like, strip.
  split.
  - unfold strip_with at 1. rewrite (lstrip_app_space _ pre _ Hpre).
    fold (strip_with str_isspace (s ++ post)).
    rewrite (strip_with_app_space _ s post Hpost). reflexivity.
  - unfold strip_with. rewrite lstrip_lower, rstrip_lower, lower_idem.
    reflexivity.
Qed.

(** Two spaces before, a tab and a space after. *)
Lemma month_like_ignores_case_and_margins_witness :
  month_like ("  " ++ "MoNtH" ++ String (ascii_of_N 9) " ") = true.
Proof.
  rewrite (proj1 (month_like_ignores_case_and_margins
                    "  " "MoNtH" (String (ascii_of_N 9) " ") eq_refl eq_refl)).
  reflexivity.
Defined.

(** ** More on the revenue cleaning *)

Lemma traverse_some {A B : Type} (f : A -> option B) (l : list A) (r : list B) :
  traverse f l = Some r ->
  List.length r = List.length l /\
  forall i a, nth_error l i = Some a ->
    exists b, nth_error r i = Some b /\ f a = Some b.
Proof.
  revert r. induction l as [| x l IH]; intros r H; simpl in H.
  - injection H as <-. split; [reflexivity |]. intros [| i] a Ha; discriminate.
  - destruct (f x) as [b |] eqn:Hx; [| discriminate].
    destruct (traverse f l) as [bs |]; [| discriminate].
    injection H as <-. destruct (IH bs eq_refl) as [Hlen Hnth].
    split; [simpl; rewrite Hlen; reflexivity |].
    intros [| i] a Ha; simpl in *.
    + injection Ha as <-. exists b. auto.
    + apply Hnth. exact Ha.
Qed.

Lemma traverse_all {A B : Type} (f : A -> option B) (l : list A) :
  (forall a, In a l -> f a <> None) -> traverse f l <> None.
Proof.
  induction l as [| x l IH]; intros H; simpl; [discriminate |].
  destruct (f x) as [b |] eqn:Hx.
  - destruct (traverse f l) eqn:Ht; [discriminate |].
    exfalso. apply IH; [| reflexivity]. intros a Ha. apply H. right. exact Ha.
  - exfalso. apply (H x); [left; reflexivity | exact Hx].
Qed.

(** X10. When the revenue column converts, the result has one float
    per cell, in order: the float of the cleaned cell, and the number
    itself for a numeric cell (a missing cell stays missing). The
    conversion fails exactly when some cell does not convert. *)
Theorem clean_revenue_cell_by_cell (col : list cell) :
  (forall vals, clean_revenue col = Some vals ->
     List.length vals = List.length col /\
     forall i c, nth_error col i = Some c ->
       exists v, nth_error vals i = Some v /\
                 astype_float_cell (replace_cell c) = Some v /\
                 (forall x, c = CNum x -> v = x)) /\
  (clean_revenue col = None <->
   exists c, In c col /\ astype_float_cell (replace_cell c) = None).
Proof.
  split.
  - intros vals H. unfold clean_revenue in H.
    destruct (traverse_some _ _ _ H) as [Hlen Hnth].
    rewrite length_map in Hlen. split; [exact Hlen |].
    intros i c Hc.
    destruct (Hnth i (replace_cell c)) as [v [Hv Hf]].
    { rewrite nth_error_map, Hc. reflexivity. }
    exists v. repeat split; try assumption.
    intros x ->. simpl in Hf. congruence.
  - split.
    + intros Hnone.
      assert (Hdec : forall l : list cell,
                (exists c, In c l /\ astype_float_cell (replace_cell c) = None) \/
                (forall c, In c l -> astype_float_cell (replace_cell c) <> None)).
      { induction l as [| x l IH]; [right; intros c [] |].
        destruct (astype_float_cell (replace_cell x)) eqn:Hx.
        - destruct IH as [[c [Hin Hc]] | Hall].
          + left. exists c. split; [right; exact Hin | exact Hc].
          + right. intros c [<- | Hin]; [congruence | apply Hall; exact Hin].
        - left. exists x. split; [left; reflexivity | exact Hx]. }
      destruct (Hdec col) as [Hex | Hall]; [exact Hex |].
      exfalso. unfold clean_revenue in Hnone.
      apply (traverse_all astype_float_cell (map replace_cell col));
        [| exact Hnone].
      intros a Ha. apply in_map_iff in Ha. destruct Ha as [c [<- Hc]].
      apply Hall. exact Hc.
    + intros [c [Hin Hc]]. unfold clean_revenue.
      apply (traverse_none _ _ (replace_cell c)); [apply in_map; exact Hin | exact Hc].
Qed.

Lemma remove_char_app (c : ascii) (a b : string) :
  remove_char c (a ++ b) = (remove_char c a ++ remove_char c b)%string.
Proof.
  induction a as [| d a IH]; [reflexivity |]. simpl.
  destruct (Ascii.eqb d c); simpl; rewrite IH; reflexivity.
Qed.

Lemma remove_char_absent (c : ascii) (s : string) :
  mem_char c s = false -> remove_char c s = s.
Proof.
  induction s as [| d s IH]; [reflexivity |]. simpl.
  destruct (Ascii.eqb d c); simpl; [discriminate |].
  intros H. rewrite IH by exact H. reflexivity.
Qed.

Lemma mem_char_remove_char (c d : ascii) (s : string) :
  mem_char c (remove_char d s) = if Ascii.eqb c d then false else mem_char c s.
Proof.
  induction s as [| e s IH]; simpl; [destruct (Ascii.eqb c d); reflexivity |].
  destruct (Ascii.eqb_spec e d) as [-> | Hed].
  - rewrite IH. destruct (Ascii.eqb_spec c d) as [-> | Hcd]; [reflexivity |].
    destruct (Ascii.eqb_spec d c) as [-> | _]; [contradiction | reflexivity].
  - simpl. rewrite IH.
    destruct (Ascii.eqb_spec c d) as [-> | Hcd]; [| reflexivity].
    destruct (Ascii.eqb_spec e d); [contradiction | reflexivity].
Qed.

Lemma clean_text_app (a b : string) :
  clean_text (a ++ b) = (clean_text a ++ clean_text b)%string.
Proof. unfold clean_text. rewrite !remove_char_app. reflexivity. Qed.

(** X11. A ["$"] or a [","] is dropped wherever it stands in the text:
    the cell with the mark and the cell without it clean to the same text
    and the same float. Cleaning twice is cleaning once, and a text
    without these marks is left as it is. *)
Theorem currency_marks_are_dropped_anywhere (s1 s2 : string) (c : ascii) :
  c = "$"%char \/ c = ","%char ->
  replace_cell (CStr (s1 ++ String c s2)) = replace_cell (CStr (s1 ++ s2)) /\
  astype_float_cell (replace_cell (CStr (s1 ++ String c s2)))
  = astype_float_cell (replace_cell (CStr (s1 ++ s2))) /\
  (forall x, replace_cell (replace_cell x) = replace_cell x) /\
  (forall s, mem_char "$" s = false -> mem_char "," s = false ->
     replace_cell (CStr s) = CStr s).
Proof.
  intros Hc.
  assert (Heq : replace_cell (CStr (s1 ++ String c s2))
                = replace_cell (CStr (s1 ++ s2))).
  { simpl. f_equal. fold (clean_text (s1 ++ String c s2)).
    fold (clean_text (s1 ++ s2)). rewrite !clean_text_app. f_equal.
    destruct Hc as [-> | ->]; reflexivity. }
  split; [exact Heq |]. split; [rewrite Heq; reflexivity |].
  assert (Hfix : forall s, mem_char "$" s = false -> mem_char "," s = false ->
                           replace_cell (CStr s) = CStr s).
  { intros s Hd Hm. simpl. rewrite (remove_char_absent "$" s Hd).
    rewrite (remove_char_absent "," s Hm). reflexivity. }
  split; [| exact Hfix].
  intros [s | x]; [| reflexivity].
  change (replace_cell (CStr s)) with (CStr (clean_text s)).
  apply Hfix; unfold clean_text; rewrite !mem_char_remove_char; reflexivity.
Qed.

(** Commas that separate no thousands are dropped all the same. *)
Lemma currency_marks_are_dropped_anywhere_witness :
  astype_float_cell (replace_cell (CStr ("1,0" ++ String "," "0")))
  = Some (f64 100).
Proof.
  rewrite (proj1 (proj2 (currency_marks_are_dropped_anywhere
                           "1,0" "0" "," (or_intror eq_refl)))).
  reflexivity.
Defined.

Lemma clean_text_blank (s : string) :
  string_forall blank_or_mark s = true ->
  string_forall Py_ISSPACE (clean_text s) = true /\
  mem_char "_" (clean_text s) = false.
Proof.
  unfold clean_text.
  induction s as [| c s IH]; intros H; [split; reflexivity |].
  cbn [string_forall] in H. apply andb_true_iff in H. destruct H as [Hc H].
  specialize (IH H). simpl.
  destruct (Ascii.eqb_spec c "$") as [-> | Hd]; [exact IH |].
  simpl. destruct (Ascii.eqb_spec c ",") as [-> | Hm]; [exact IH |].
  unfold blank_or_mark in Hc.
  destruct (Ascii.eqb_spec c "$"); [contradiction |].
  destruct (Ascii.eqb_spec c ","); [contradiction |].
  simpl in Hc. cbn [string_forall mem_char]. rewrite Hc.
  destruct IH as [IH1 IH2]. rewrite IH1, IH2.
  split; [reflexivity |].
  destruct (Ascii.eqb_spec c "_") as [-> | _]; [discriminate Hc | reflexivity].
Qed.

Lemma float_of_string_blank (s : string) :
  string_forall Py_ISSPACE s = true -> mem_char "_" s = false ->
  float_of_string s = None.
Proof.
  intros Hs Hu. unfold float_of_string.
  destruct (underscores_ok Ascii.zero s); [| reflexivity].
  rewrite (remove_char_absent "_" s Hu).
  unfold strip_with. rewrite (lstrip_all_space Py_ISSPACE s Hs). reflexivity.
Qed.

(** X12. A text cell made only of ["$"], [","] and white space holds no
    number: the conversion of a column with such a cell fails. *)
Theorem cell_without_a_number_fails (col : list cell) (s : string) :
  In (CStr s) col ->
  string_forall blank_or_mark s = true ->
  clean_revenue col = None.
Proof.
  intros Hin Hs. unfold clean_revenue.
  apply (traverse_none _ _ (replace_cell (CStr s))); [apply in_map; exact Hin |].
  destruct (clean_text_blank s Hs) as [H1 H2].
  simpl. apply float_of_string_blank; assumption.
Qed.

(** A cell with a dollar sign and no amount. *)
Lemma cell_without_a_number_fails_witness :
  clean_revenue [CStr "$1,000.00"; CStr " $ "] = None.
Proof.
  apply (cell_without_a_number_fails _ " $ ").
  - right. left. reflexivity.
  - reflexivity.
Defined.

(** ** The run as a whole *)

Lemma lookup_column_In (name : string) (data : RawTable) :
  In name (columns data) -> exists cells, lookup_column name data = Some cells.
Proof.
  unfold lookup_column. induction data as [| [c cells] data IH]; intros H;
    simpl in *; [contradiction |].
  destruct (String.eqb_spec c name) as [-> | Hne].
  - exists cells. reflexivity.
  - destruct H as [H | H]; [contradiction | apply IH; exact H].
Qed.

Section Runs.

Context {E : Externals}.

Lemma run_headers (i : Interaction) (ss : SessionState) :
  run i ss
  = (fst (fst (body i ss)), snd (fst (body i ss)), headers ++ snd (body i ss)).
Proof.
  unfold run, script. fold (body i).
  unfold bind at 1 2 3. unfold emit. simpl.
  destruct (body i ss) as [[r s] l]. reflexivity.
Qed.

(** The loader reads the table and nothing else. *)
Lemma loader_pure (data : RawTable) (ss : SessionState) :
  exists r, loader data ss = (r, ss, []).
Proof.
  unfold loader, bind, or_raise, ret, raise.
  destruct (lookup_column "Month" data); [| eexists; reflexivity].
  destruct (to_datetime l); [| eexists; reflexivity].
  destruct (lookup_column " Revenue " data); [| eexists; reflexivity].
  destruct (clean_revenue l1); eexists; reflexivity.
Qed.

Lemma body_loader_error (i : Interaction) (ss : SessionState)
    (data : RawTable) (e : Error) :
  normalize_columns (csv i) = Some data ->
  loader data ss = (inl e, ss, []) ->
  run i ss = (inl e, ss, headers).
Proof.
  intros Hn Hl. rewrite run_headers. unfold body, normalizer.
  rewrite Hn.
  rewrite (bind_ok (ret data) _ ss ss data [] eq_refl).
  rewrite (bind_err _ _ _ _ _ _ Hl). reflexivity.
Qed.

(** X13. After the normalizer the column ["Month"] is always found. A
    date that does not parse stops the run with [DateParseError], a
    missing [" Revenue "] column with [KeyError] and a revenue that does
    not convert with [NumericParseError], in this order of precedence;
    the run then shows the three headers only, calls no fit and leaves
    the session state as it was. *)
Theorem loader_failure_stops_run (i : Interaction) (ss : SessionState)
    (data : RawTable) :
  normalize_columns (csv i) = Some data ->
  (exists months, lookup_column "Month" data = Some months) /\
  (forall months, lookup_column "Month" data = Some months ->
     to_datetime months = None ->
     run i ss = (inl DateParseError, ss, headers)) /\
  (forall months idx, lookup_column "Month" data = Some months ->
     to_datetime months = Some idx ->
     lookup_column " Revenue " data = None ->
     run i ss = (inl KeyError, ss, headers)) /\
  (forall months idx cells, lookup_column "Month" data = Some months ->
     to_datetime months = Some idx ->
     lookup_column " Revenue " data = Some cells ->
     clean_revenue cells = None ->
     run i ss = (inl NumericParseError, ss, headers)).
Proof.
  intros Hn.
  split; [apply lookup_column_In; eapply normalize_columns_has_Month; eauto |].
  split; [| split].
  - intros months Hm Hd. apply (body_loader_error i ss data _ Hn).
    unfold loader, bind, or_raise, ret, raise. rewrite Hm, Hd. reflexivity.
  - intros months idx Hm Hd Hr. apply (body_loader_error i ss data _ Hn).
    unfold loader, bind, or_raise, ret, raise. rewrite Hm, Hd, Hr. reflexivity.
  - intros months idx cells Hm Hd Hr Hc.
    apply (body_loader_error i ss data _ Hn).
    unfold loader, bind, or_raise, ret, raise. rewrite Hm, Hd, Hr, Hc.
    reflexivity.
Qed.

Lemma body_loaded (i : Interaction) (ss : SessionState)
    (data : RawTable) (loaded : Frame.t) :
  normalize_columns (csv i) = Some data ->
  loader data ss = (inr loaded, ss, []) ->
  body i ss
  = bind (trained_model (regularize loaded)) (fun m =>
      bind (forecaster m (regularize loaded)) (fun forecast_series =>
        presenter (page i) (slider i) (whole_frame data loaded)
                  forecast_series)) ss.
Proof.
  intros Hn Hl. unfold body, normalizer. rewrite Hn.
  rewrite (bind_ok (ret data) _ ss ss data [] eq_refl).
  rewrite (bind_ok _ _ _ _ _ _ Hl). simpl.
  destruct (bind (trained_model (regularize loaded)) _ ss) as [[r s] l].
  reflexivity.
Qed.

Lemma forecaster_empty (m : Model) (ss : SessionState) :
  forecaster m [] ss = (inl IndexError, ss, [CallPredict n_periods]).
Proof. reflexivity. Qed.

(** X14. A file with no data row never gives a forecast. With a model
    in the session the run calls [predict] and stops with [IndexError] on
    line 68; without one it calls the fit on the empty series, and stops
    with [ModelFitError] when the fit fails, or stores the model and
    stops with [IndexError]. *)
Theorem empty_file_never_forecasts (i : Interaction) (ss : SessionState)
    (data : RawTable) :
  normalize_columns (csv i) = Some data ->
  loader data ss = (inr [], ss, []) ->
  (forall m, model ss = Some m ->
     run i ss = (inl IndexError, ss, headers ++ [CallPredict n_periods])) /\
  (model ss = None -> auto_arima [] = None ->
     run i ss
     = (inl ModelFitError, ss,
        headers ++ [UiSpinner "Training ARIMA model..."; CallFit []])) /\
  (forall m, model ss = None -> auto_arima [] = Some m ->
     run i ss
     = (inl IndexError, mkSession (Some m) (selected_end_year ss),
        headers ++ fit_events [] ++ [CallPredict n_periods])).
Proof.
  intros Hn Hl. rewrite run_headers, (body_loaded i ss data [] Hn Hl).
  change (regularize []) with (@nil Frame.Row).
  split; [| split].
  - intros m Hm.
    rewrite (bind_ok _ _ _ _ _ _ (trained_model_cached [] ss m Hm)).
    rewrite (bind_err _ _ _ _ _ _ (forecaster_empty m ss)). reflexivity.
  - intros Hm Hfit.
    rewrite (bind_err _ _ _ _ _ _ (trained_model_fails [] ss Hm Hfit)).
    reflexivity.
  - intros m Hm Hfit.
    rewrite (bind_ok _ _ _ _ _ _ (trained_model_fits [] ss m Hm Hfit)).
    rewrite (bind_err _ _ _ _ _ _ (forecaster_empty m _)). reflexivity.
Qed.

End Runs.

(** A revenue that reads [abc]. *)
Lemma loader_failure_stops_run_witness :
  @run flat_externals (mkInteraction bad_revenue_csv Welcome None) empty_session
  = (inl NumericParseError, empty_session, headers).
Proof.
  refine (proj2 (proj2 (proj2 (@loader_failure_stops_run flat_externals
            (mkInteraction bad_revenue_csv Welcome None) empty_session
            bad_revenue_csv eq_refl)))
          [CStr "1972-01-01"; CStr "1972-02-01"]
          [date 1972 1 1; date 1972 2 1]
          [CStr "$1,000.00"; CStr "abc"] eq_refl eq_refl eq_refl eq_refl).
Defined.

(** The file with a header only, in a new session. *)
Lemma empty_file_never_forecasts_witness :
  @run flat_externals (mkInteraction empty_csv ForecastTable None) empty_session
  = (inl ModelFitError, empty_session,
     headers ++ [UiSpinner "Training ARIMA model..."; CallFit []]).
Proof.
  refine (proj1 (proj2 (@empty_file_never_forecasts flat_externals
            (mkInteraction empty_csv ForecastTable None) empty_session
            empty_csv eq_refl eq_refl)) eq_refl eq_refl).
Defined.

(** ** A first run *)

Section FirstRun.

Context {E : Externals}.

(** The assembler calls [predict] and nothing else. *)
Lemma forecaster_log (m : Model) (df : Frame.t) (ss : SessionState) :
  exists r, forecaster m df ss = (r, ss, [CallPredict n_periods]).
Proof.
  unfold forecaster, bind, emit, or_raise, ret, raise.
  destruct (last_index df); simpl; [| eexists; reflexivity].
  destruct (make_series _ _); eexists; reflexivity.
Qed.

(** X15. A first run whose fit returns a model stores it before the
    forecast is assembled. Whether the run then completes or stops, the
    session holds the model, the log starts with the headers, the fit and
    the call of [predict], and exactly one fit was called. The run stops
    with [IndexError] on an empty series and with the error of
    [pd.Series] when the prediction cannot be made a series; otherwise
    its outcome is that of the page shown for the assembled forecast. The
    next run, whatever its file and page, keeps the model and calls no
    fit. *)
Theorem first_run_keeps_fitted_model (i : Interaction) (ss : SessionState)
    (data : RawTable) (loaded : Frame.t) (m : Model) :
  normalize_columns (csv i) = Some data ->
  loader data ss = (inr loaded, ss, []) ->
  model ss = None ->
  auto_arima (regularize loaded) = Some m ->
  model (snd (fst (run i ss))) = Some m /\
  (exists rest,
     snd (run i ss)
     = headers ++ fit_events (regularize loaded)
       ++ CallPredict n_periods :: rest /\
     calm rest = true) /\
  fit_count (snd (run i ss)) = 1%nat /\
  (last_index (regularize loaded) = None ->
   run i ss
   = (inl IndexError, mkSession (Some m) (selected_end_year ss),
      headers ++ fit_events (regularize loaded) ++ [CallPredict n_periods])) /\
  (forall last e, last_index (regularize loaded) = Some last ->
     make_series (predict m n_periods) (forecast_index last n_periods) = inl e ->
     run i ss
     = (inl e, mkSession (Some m) (selected_end_year ss),
        headers ++ fit_events (regularize loaded) ++ [CallPredict n_periods])) /\
  (forall last fs, last_index (regularize loaded) = Some last ->
     make_series (predict m n_periods) (forecast_index last n_periods) = inr fs ->
     let shown := presenter (page i) (slider i) (whole_frame data loaded) fs
                    (mkSession (Some m) (selected_end_year ss)) in
     run i ss
     = (fst (fst shown), snd (fst shown),
        headers ++ fit_events (regularize loaded) ++ [CallPredict n_periods]
        ++ snd shown)) /\
  (forall i',
     model (snd (fst (run i' (snd (fst (run i ss)))))) = Some m /\
     fit_count (snd (run i' (snd (fst (run i ss))))) = 0%nat).
Proof.
  intros Hn Hl Hm Hfit.
  set (df := regularize loaded).
  set (ss1 := mkSession (Some m) (selected_end_year ss)).
  set (rest := fun fs => presenter (page i) (slider i)
                           (whole_frame data loaded) fs).
  assert (Hrun : run i ss
                 = (fst (fst (bind (forecaster m df) rest ss1)),
                    snd (fst (bind (forecaster m df) rest ss1)),
                    headers ++ fit_events df
                    ++ snd (bind (forecaster m df) rest ss1))).
  { rewrite run_headers, (body_loaded i ss data loaded Hn Hl).
    rewrite (bind_ok _ _ _ _ _ _ (trained_model_fits _ ss m Hm Hfit)).
    reflexivity. }
  assert (Hholds : holds (Some m) (bind (forecaster m df) rest)).
  { apply holds_bind; [apply holds_forecaster | intros fs].
    apply holds_presenter. }
  specialize (Hholds ss1 eq_refl).
  destruct (forecaster_log m df ss1) as [r Hr].
  assert (Hmodel : model (snd (fst (run i ss))) = Some m).
  { rewrite Hrun. apply Hholds. }
  assert (Hlog : exists tail,
             snd (bind (forecaster m df) rest ss1)
             = CallPredict n_periods :: tail /\ calm tail = true).
  { destruct Hholds as [_ Hcalm]. revert Hcalm. unfold bind. rewrite Hr.
    destruct r as [e | fs].
    - exists []. split; reflexivity.
    - destruct (rest fs ss1) as [[r2 s2] l2]. simpl. intros Hcalm.
      exists l2. split; [reflexivity | exact Hcalm]. }
  split; [exact Hmodel |].
  split.
  { destruct Hlog as [tail [Htail Hcalm]]. exists tail.
    rewrite Hrun. cbn [snd]. rewrite Htail. split; [reflexivity | exact Hcalm]. }
  split.
  { destruct Hlog as [tail [Htail Hcalm]]. rewrite Hrun. cbn [snd].
    rewrite Htail, !fit_count_app.
    change (CallPredict n_periods :: tail)
      with ([CallPredict n_periods] ++ tail).
    rewrite fit_count_app. apply calm_counts in Hcalm.
    destruct Hcalm as [Hzero _]. rewrite Hzero. reflexivity. }
  split.
  { intros Hnone. rewrite Hrun.
    assert (Hf : forecaster m df ss1
                 = (inl IndexError, ss1, [CallPredict n_periods])).
    { unfold forecaster, bind, emit, or_raise, ret, raise. fold df in Hnone.
      rewrite Hnone. reflexivity. }
    rewrite (bind_err _ _ _ _ _ _ Hf). reflexivity. }
  split.
  { intros last e Hlast He. rewrite Hrun.
    assert (Hf : forecaster m df ss1 = (inl e, ss1, [CallPredict n_periods])).
    { rewrite (forecaster_run m df last ss1 Hlast), He. reflexivity. }
    rewrite (bind_err _ _ _ _ _ _ Hf). reflexivity. }
  split.
  { intros last fs Hlast Hfs shown. rewrite Hrun.
    assert (Hf : forecaster m df ss1 = (inr fs, ss1, [CallPredict n_periods])).
    { rewrite (forecaster_run m df last ss1 Hlast), Hfs. reflexivity. }
    rewrite (bind_ok _ _ _ _ _ _ Hf). reflexivity. }
  intros i'.
  destruct (run_with_model i' (snd (fst (run i ss))) m Hmodel) as [Hkeep Hcalm].
  split; [exact Hkeep |]. apply calm_counts in Hcalm. apply Hcalm.
Qed.

End FirstRun.

(** The file of three years, on the table page. *)
Lemma first_run_keeps_fitted_model_witness :
  model (snd (fst (@run flat_externals
                     (mkInteraction monthly_csv ForecastTable None)
                     empty_session)))
  = Some (f64 1350) /\
  fit_count (snd (@run flat_externals
                    (mkInteraction monthly_csv ForecastTable None)
                    empty_session)) = 1%nat.
Proof.
  destruct (@first_run_keeps_fitted_model flat_externals
              (mkInteraction monthly_csv ForecastTable None) empty_session
              (rename monthly_csv "month" "Month") monthly_frame (f64 1350)
              eq_refl) as [H1 [_ [H3 _]]].
  - vm_compute. reflexivity.
  - reflexivity.
  - vm_compute. reflexivity.
  - split; [exact H1 | exact H3].
Defined.

(** ** The yearly plots *)

Lemma ts_lt_year (a b : Timestamp) : ts_lt a b -> year a <= year b.
Proof.
  unfold ts_lt, ts_ltb, ts_compare.
  destruct (Z.compare_spec (year a) (year b)); try lia; try discriminate.
Qed.

Lemma in_years_empty (a b : Z) (fs : Frame.t) :
  b < a -> filter (in_years a b) fs = [].
Proof.
  intros H. induction fs as [| r fs IH]; [reflexivity |]. simpl.
  unfold in_years at 1.
  destruct (Z.leb_spec a (year (fst r))); destruct (Z.leb_spec (year (fst r)) b);
    simpl; try exact IH. lia.
Qed.

Lemma in_years_later (a b : Z) (fs : Frame.t) :
  (forall r, In r fs -> b < year (fst r)) -> filter (in_years a b) fs = [].
Proof.
  induction fs as [| r fs IH]; intros H; [reflexivity |]. simpl.
  pose proof (H r (or_introl eq_refl)) as Hr.
  unfold in_years at 1.
  destruct (Z.leb_spec (year (fst r)) b); [lia |].
  rewrite andb_false_r. apply IH. intros r' Hr'. apply H. right. exact Hr'.
Qed.

Lemma in_years_split (a b : Z) (fs : Frame.t) :
  a <= b + 1 ->
  strictly_increasing (Frame.index fs) ->
  filter (in_years a b) fs ++ filter (in_years (b + 1) (b + 1)) fs
  = filter (in_years a (b + 1)) fs.
Proof.
  intros Hab. induction fs as [| r fs IH]; intros Hs; [reflexivity |].
  unfold strictly_increasing in *. simpl in Hs.
  inversion Hs as [| ? ? Hs' Hall]; subst. specialize (IH Hs').
  assert (Hlater : forall r', In r' fs -> year (fst r) <= year (fst r')).
  { intros r' Hr'. apply ts_lt_year. rewrite Forall_forall in Hall.
    apply Hall. apply in_map. exact Hr'. }
  assert (Hspec : forall lo hi, in_years lo hi r = true <->
                                lo <= year (fst r) <= hi).
  { intros lo hi. unfold in_years. rewrite andb_true_iff, !Z.leb_le. tauto. }
  assert (Hnone : year (fst r) = b + 1 -> filter (in_years a b) fs = []).
  { intros Hy. apply in_years_later. intros r' Hr'.
    specialize (Hlater r' Hr'). lia. }
  assert (Hnot : forall lo hi, in_years lo hi r = false ->
                               ~ (lo <= year (fst r) <= hi)).
  { intros lo hi Hf Hr. apply Hspec in Hr. congruence. }
  cbn [filter].
  destruct (in_years a b r) eqn:E1;
    [apply Hspec in E1 | apply Hnot in E1];
    (destruct (in_years (b + 1) (b + 1) r) eqn:E2;
     [apply Hspec in E2 | apply Hnot in E2]);
    (destruct (in_years a (b + 1) r) eqn:E3;
     [apply Hspec in E3 | apply Hnot in E3]);
    try lia.
  - simpl. f_equal. exact IH.
  - rewrite Hnone in * by lia. simpl in *. f_equal. exact IH.
  - exact IH.
Qed.

Lemma year_range_succ (a : Z) (n : nat) :
  map (fun i => a + Z.of_nat i) (seq 0 (S n))
  = map (fun i => a + Z.of_nat i) (seq 0 n) ++ [a + Z.of_nat n].
Proof. rewrite seq_S, map_app. reflexivity. Qed.

Lemma yearly_filters_concat (a : Z) (n : nat) (fs : Frame.t) :
  strictly_increasing (Frame.index fs) ->
  List.concat (map (fun y => filter (in_years y y) fs)
                 (map (fun i => a + Z.of_nat i) (seq 0 n)))
  = filter (in_years a (a + Z.of_nat n - 1)) fs.
Proof.
  intros Hs. induction n as [| n IH].
  - simpl. rewrite in_years_empty by lia. reflexivity.
  - rewrite year_range_succ, map_app, concat_app, IH. cbn [map List.concat].
    rewrite app_nil_r.
    replace (a + Z.of_nat (S n) - 1) with (a + Z.of_nat n - 1 + 1) by lia.
    remember (a + Z.of_nat n - 1) as b eqn:Hb.
    replace (a + Z.of_nat n) with (b + 1) by lia.
    apply in_years_split; [lia | exact Hs].
Qed.

(** X17. The plot page draws one yearly plot per year from 1972 to the
    year picked (none when it is before 1972). For a forecast in
    increasing date order the yearly plots, one after the other, hold
    exactly the rows of the combined plot, in the same order. *)
Theorem yearly_plots_partition_the_window (fs : Frame.t) (c : Z) :
  strictly_increasing (Frame.index fs) ->
  List.concat (map (fun y => filter (in_years y y) fs) (year_range 1972 c))
  = filter (in_years 1972 c) fs /\
  List.length (year_range 1972 c) = Z.to_nat (c - 1971) /\
  (forall y, In y (year_range 1972 c) <-> 1972 <= y <= c) /\
  (forall r, In r (filter (in_years 1972 c) fs) <->
             In r fs /\ 1972 <= year (fst r) <= c).
Proof.
  intros Hs. split; [| split; [| split]].
  - unfold year_range. rewrite (yearly_filters_concat 1972 _ fs Hs).
    destruct (Z.le_gt_cases 1972 c) as [Hc | Hc].
    + replace (1972 + Z.of_nat (Z.to_nat (c + 1 - 1972)) - 1) with c by lia.
      reflexivity.
    + rewrite !in_years_empty by lia. reflexivity.
  - unfold year_range. rewrite length_map, length_seq. f_equal. lia.
  - intros y. unfold year_range. rewrite in_map_iff. split.
    + intros [i [<- Hi]]. apply in_seq in Hi. lia.
    + intros Hy. exists (Z.to_nat (y - 1972)). split; [lia |].
      apply in_seq. lia.
  - intros r. rewrite filter_In. unfold in_years.
    rewrite andb_true_iff, !Z.leb_le. tauto.
Qed.

(** The regularized sample is in date order. *)
Lemma yearly_plots_partition_the_window_witness :
  List.concat (map (fun y => filter (in_years y y) (regularize three_months))
                 (year_range 1972 1976))
  = filter (in_years 1972 1976) (regularize three_months).
Proof.
  apply yearly_plots_partition_the_window.
  repeat constructor.
Defined.
